(** * retrain.py: the retrain orchestrator, embedded and verified

    The script watches a dataset file, and when its MD5 changes it runs the
    training script in a child process, copies the produced [model.pkl] into
    a timestamped version under [models/], and records the dataset MD5 in
    [data/last_retrain.txt].

    The embedding follows the script function by function.  Everything the
    script asks of the operating system is a [sys] call; a Python function
    is a tree of such calls ([prog]), and [run] interprets a tree against a
    file system ([files]) and an environment ([nat -> choice]) that decides,
    call by call, which operations meet an OS error, what the clock and
    [mkstemp] return and what the training process does.  [run] also
    records the calls made, in order, with their outcomes ([trace]). *)

From stdpp Require Import gmap strings list fin_maps.
From Stdlib Require Import ZArith Ascii String.

Local Open Scope string_scope.
Local Open Scope Z_scope.

(** ** Paths and the file system *)

(** A [pathlib.Path] is the list of its components:
    [Path("data/add.csv")] is ["data"; "add.csv"]. *)
Abbreviation path := (list string) (only parsing).

(** [Path.parent], [Path.name] and the [/] operator. *)
Definition parent (p : path) : path := removelast p.
Definition name (p : path) : string := List.last p EmptyString.
Definition join (p : path) (s : string) : path := p ++ [s].
Arguments join p s /.
Infix "//" := join (at level 40, left associativity).

(** A directory entry is a regular file with its bytes, or a symbolic link
    with its (relative) target.  Directories themselves are not
    represented: the script creates the two it needs when it is loaded,
    and a missing directory shows up as a failing call. *)
Inductive node : Type :=
| File (content : string)
| Symlink (target : string).

Abbreviation files := (gmap (list string) node) (only parsing).

(** What opening [p] finds: the entry's bytes, through one link. *)
Definition resolve (fs : files) (p : path) : option string :=
  match fs !! p with
  | Some (File c) => Some c
  | Some (Symlink t) =>
      match fs !! (parent p // t) with
      | Some (File c) => Some c
      | _ => None
      end
  | None => None
  end.

Definition exists_ (fs : files) (p : path) : bool :=
  match resolve fs p with Some _ => true | None => false end.

Definition is_symlink (fs : files) (p : path) : bool :=
  match fs !! p with Some (Symlink _) => true | _ => false end.

(** ** Configuration (the CONFIG block of the script) *)

Definition DATA_PATH : path := ["data"; "add.csv"].
Definition META_PATH : path := ["data"; "last_retrain.txt"].
Definition MODELS_DIR : path := ["models"].
Definition MODEL_SRC : path := ["model.pkl"].
Definition TRAIN_SCRIPT : path := ["train_model.py"].
Definition POLL_INTERVAL : Z := 300.
Definition TRAIN_TIMEOUT : Z := 60 * 60.
Definition LOCKFILE : path := [".retrain.lock"].

(** ** Strings *)

(** [str(path)]. *)
Fixpoint str (p : path) : string :=
  match p with
  | [] => "."
  | [s] => s
  | s :: q => s +:+ "/" +:+ str q
  end.

Definition newline : string := String (ascii_of_nat 10) EmptyString.

Definition nonempty (s : string) : bool :=
  match s with EmptyString => false | String _ _ => true end.

(** [str.isspace] on the ASCII range: tab, line feed, vertical tab, form
    feed, carriage return, the four separators 28..31 and the space. *)
Definition isspace (a : ascii) : bool :=
  let n := nat_of_ascii a in
  ((9 <=? n) && (n <=? 13) || (28 <=? n) && (n <=? 32))%nat.

Fixpoint lstrip (s : string) : string :=
  match s with
  | EmptyString => EmptyString
  | String a s' => if isspace a then lstrip s' else s
  end.

Fixpoint rstrip (s : string) : string :=
  match s with
  | EmptyString => EmptyString
  | String a s' =>
      match rstrip s' with
      | EmptyString => if isspace a then EmptyString else String a EmptyString
      | r => String a r
      end
  end.

(** [str.strip()]. *)
Definition strip (s : string) : string := rstrip (lstrip s).

Fixpoint string_forallb (f : ascii -> bool) (s : string) : bool :=
  match s with
  | EmptyString => true
  | String a s' => f a && string_forallb f s'
  end.

(** The characters of [hexdigest()]: digits and lower-case a..f. *)
Definition is_hex (a : ascii) : bool :=
  let n := nat_of_ascii a in
  ((48 <=? n) && (n <=? 57) || (97 <=? n) && (n <=? 102))%nat.

(** A fingerprint: what [hashlib.md5().hexdigest()] returns, 32 hex digits. *)
Definition is_fingerprint (s : string) : bool :=
  string_forallb is_hex s && (String.length s =? 32)%nat.

Fixpoint take_str (n : nat) (s : string) : string :=
  match n, s with
  | S n', String a s' => String a (take_str n' s')
  | _, _ => EmptyString
  end.

Fixpoint drop_str (n : nat) (s : string) : string :=
  match n, s with
  | S n', String _ s' => drop_str n' s'
  | _, _ => s
  end.

(** The successive results of [f.read(n)] on a file holding [s], up to the
    empty read that ends the [iter] loop. *)
Fixpoint chunks_upto (fuel n : nat) (s : string) : list string :=
  match fuel with
  | O => []
  | S fuel' =>
      if nonempty s
      then take_str n s :: chunks_upto fuel' n (drop_str n s)
      else []
  end.

Definition chunks (n : nat) (s : string) : list string :=
  chunks_upto (String.length s) n s.

(** Decimal rendering, for [%d] and the zero-padded fields of [strftime]. *)
Definition digit (n : nat) : ascii := ascii_of_nat (48 + n mod 10).

Fixpoint decimal_upto (fuel n : nat) (acc : string) : string :=
  match fuel with
  | O => acc
  | S fuel' =>
      let acc' := String (digit n) acc in
      if (n <? 10)%nat then acc' else decimal_upto fuel' (n / 10) acc'
  end.

Definition decimal (n : nat) : string := decimal_upto (S n) n EmptyString.

Fixpoint pad_upto (width : nat) (n : nat) (acc : string) : string :=
  match width with
  | O => acc
  | S w => pad_upto w (n / 10) (String (digit n) acc)
  end.

(** [%0wd] for a number that fits in [width] digits. *)
Definition pad (width n : nat) : string := pad_upto width n EmptyString.

Record datetime : Type := {
  year : nat; month : nat; day : nat;
  hour : nat; minute : nat; second : nat
}.

(** [strftime("%Y%m%dT%H%M%SZ")]. *)
Definition strftime_stamp (d : datetime) : string :=
  pad 4 (year d) +:+ pad 2 (month d) +:+ pad 2 (day d) +:+ "T" +:+
  pad 2 (hour d) +:+ pad 2 (minute d) +:+ pad 2 (second d) +:+ "Z".

(** ** Exceptions *)

Inductive errno : Type := ENOENT | EEXIST | EACCES | ENOSPC | EIO.

(** The exceptions the script can meet.  Python derives the class of an
    [OSError] from its errno: [FileNotFoundError] is [OSError ENOENT],
    [FileExistsError] is [OSError EEXIST], [PermissionError] is
    [OSError EACCES]. *)
Inductive exn : Type :=
| OSError (e : errno)
| TimeoutExpired
| UnicodeDecodeError
| ValueError
| OverflowError
| KeyboardInterrupt.

Definition is_FileExistsError (e : exn) : bool :=
  match e with OSError EEXIST => true | _ => false end.

Definition is_OSError (e : exn) : bool :=
  match e with OSError _ => true | _ => false end.

Definition is_TimeoutExpired (e : exn) : bool :=
  match e with TimeoutExpired => true | _ => false end.

Definition is_KeyboardInterrupt (e : exn) : bool :=
  match e with KeyboardInterrupt => true | _ => false end.

(** [except Exception] catches everything but [KeyboardInterrupt], which
    derives from [BaseException] only. *)
Definition is_Exception (e : exn) : bool :=
  match e with KeyboardInterrupt => false | _ => true end.

Inductive res (A : Type) : Type :=
| Ok (a : A)
| Raise (e : exn).
Arguments Ok {A} a.
Arguments Raise {A} e.

Definition is_ok {A} (r : res A) : bool :=
  match r with Ok _ => true | Raise _ => false end.

(** ** Operating-system calls *)

Inductive level : Type := DEBUG | INFO | WARNING | ERROR.

(** [subprocess.CompletedProcess]. *)
Record proc : Type := {
  returncode : Z;
  stdout : string;
  stderr : string
}.

Inductive sys : Type :=
| PathExists (p : path)              (* Path.exists *)
| OsPathExists (p : path)            (* os.path.exists *)
| IsSymlink (p : path)               (* Path.is_symlink *)
| ReadBytes (p : path)               (* open "rb" and read to the end *)
| ReadText (p : path)                (* Path.read_text *)
| Mkdir (p : path)                   (* Path.mkdir(parents, exist_ok) *)
| Mkstemp (dir : path)               (* tempfile.mkstemp(dir=...) *)
| WriteText (p : path) (s : string)  (* os.fdopen(fd, "w"), write, close *)
| OpenExcl (p : path)                (* os.open(O_CREAT|O_EXCL|O_WRONLY) *)
| Replace (src dst : path)           (* os.replace *)
| Remove (p : path)                  (* os.remove, Path.unlink *)
| Copy2 (src dst : path)             (* shutil.copy2 *)
| MkSymlink (target : string) (link : path)   (* os.symlink *)
| UtcNow                             (* datetime.utcnow *)
| GetPid                             (* os.getpid *)
| Run (cmd : list string) (env : list (string * string)) (timeout : Z)
                                     (* subprocess.run, output captured *)
| Sleep (seconds : Z)                (* time.sleep *)
| Log (lvl : level) (msg : string).  (* logger.debug/info/warning/error *)

Definition ret (s : sys) : Type :=
  match s with
  | PathExists _ | OsPathExists _ | IsSymlink _ => bool
  | ReadBytes _ | ReadText _ => string
  | Mkstemp _ => list string
  | UtcNow => datetime
  | GetPid => nat
  | Run _ _ _ => proc
  | _ => unit
  end.

(** What the environment decides for one call.  Ctrl-C is followed where
    the script waits for it, in the sleep of the watch loop; what is said
    below of the errors of a run is said of the exceptions of the class
    [Exception]. *)
Record choice : Type := {
  fault : option errno;          (* the OS error the call meets, if any *)
  partial : option nat;          (* bytes that reach the file when a
                                    write or copy faults; [None]: the
                                    file is not touched *)
  undecodable : bool;            (* [read_text] meets bytes it cannot decode *)
  rand : string;                 (* the random part of mkstemp's name *)
  clock : datetime;
  pid : nat;
  child : option proc;           (* the child's exit, [None]: it hangs *)
  child_effect : files -> files; (* what the child does to the disk *)
  interrupt : bool               (* Ctrl-C arrives during the sleep *)
}.

Definition failing {A : Type} (c : choice) (fs : files) (ok : res A * files)
  : res A * files :=
  match fault c with
  | Some e => (Raise (OSError e), fs)
  | None => ok
  end.
Arguments failing {A} c fs ok /.

(** The errors of [stat] that say that the path leads nowhere: pathlib
    takes ENOENT, ENOTDIR, EBADF and ELOOP for such, of which [errno] has
    the first.  [Path.exists] and [Path.is_symlink] read them as "not
    there" and raise every other [OSError] again.  Whether an entry is
    there is for the disk to say (a missing entry is the case of ENOENT),
    so that an errno of this kind is no error of the environment for
    these two calls: only the others are. *)
Definition leads_nowhere (e : errno) : bool :=
  match e with ENOENT => true | _ => false end.

(** The error that leaves [Path.exists] or [Path.is_symlink], if any. *)
Definition stat_error (c : choice) : option errno :=
  match fault c with
  | Some e => if leads_nowhere e then None else Some e
  | None => None
  end.

(** [Path.exists] and [Path.is_symlink]: the answer [found] of the disk,
    unless [stat] meets an error of the environment, which is raised.
    ([os.path.exists] never raises: it is answered from the disk.) *)
Definition checking (c : choice) (fs : files) (found : bool)
  : res bool * files :=
  match stat_error c with
  | Some e => (Raise (OSError e), fs)
  | None => (Ok found, fs)
  end.
Arguments checking c fs found /.

(** The longest sleep, in seconds, that fits the interpreter's clock of
    64-bit nanoseconds. *)
Definition SLEEP_MAX : Z := 9223372036.

(** What [time.sleep] refuses before it sleeps: a length beyond the clock
    (OverflowError), then a negative length (ValueError). *)
Definition sleep_error (seconds : Z) : option exn :=
  if (SLEEP_MAX <? Z.abs seconds)%Z then Some OverflowError
  else if (seconds <? 0)%Z then Some ValueError
  else None.

(** The effect of one call on the disk and what it returns. *)
Definition handle (c : choice) (fs : files) (s : sys) : res (ret s) * files :=
  match s as s0 return res (ret s0) * files with
  | PathExists p => checking c fs (exists_ fs p)
  | OsPathExists p => (Ok (exists_ fs p), fs)
  | IsSymlink p => checking c fs (is_symlink fs p)
  | ReadBytes p =>
      failing c fs
        match resolve fs p with
        | Some b => (Ok b, fs)
        | None => (Raise (OSError ENOENT), fs)
        end
  | ReadText p =>
      failing c fs
        match resolve fs p with
        | Some b => if undecodable c then (Raise UnicodeDecodeError, fs)
                    else (Ok b, fs)
        | None => (Raise (OSError ENOENT), fs)
        end
  | Mkdir p => failing c fs (Ok tt, fs)
  | Mkstemp d =>
      failing c fs
        (let tmp := d // ("tmp" +:+ rand c) in
         match fs !! tmp with
         | Some _ => (Raise (OSError EEXIST), fs)
         | None => (Ok tmp, <[tmp := File EmptyString]> fs)
         end)
  | WriteText p s =>
      match fault c with
      | Some e =>
          (Raise (OSError e),
           match partial c with
           | Some k => <[p := File (take_str k s)]> fs
           | None => fs
           end)
      | None => (Ok tt, <[p := File s]> fs)
      end
  | OpenExcl p =>
      failing c fs
        match fs !! p with
        | Some _ => (Raise (OSError EEXIST), fs)
        | None => (Ok tt, <[p := File EmptyString]> fs)
        end
  | Replace src dst =>
      failing c fs
        match fs !! src with
        | Some n => (Ok tt, <[dst := n]> (delete src fs))
        | None => (Raise (OSError ENOENT), fs)
        end
  | Remove p =>
      failing c fs
        match fs !! p with
        | Some _ => (Ok tt, delete p fs)
        | None => (Raise (OSError ENOENT), fs)
        end
  | Copy2 src dst =>
      match resolve fs src with
      | None => (Raise (OSError (default ENOENT (fault c))), fs)
      | Some b =>
          match fault c with
          | Some e =>
              (Raise (OSError e),
               match partial c with
               | Some k => <[dst := File (take_str k b)]> fs
               | None => fs
               end)
          | None => (Ok tt, <[dst := File b]> fs)
          end
      end
  | MkSymlink t l =>
      failing c fs
        match fs !! l with
        | Some _ => (Raise (OSError EEXIST), fs)
        | None => (Ok tt, <[l := Symlink t]> fs)
        end
  | UtcNow => (Ok (clock c), fs)
  | GetPid => (Ok (pid c), fs)
  | Run _ _ _ =>
      failing c fs
        match child c with
        | Some p => (Ok p, child_effect c fs)
        | None => (Raise TimeoutExpired, child_effect c fs)
        end
  | Sleep seconds =>
      match sleep_error seconds with
      | Some e => (Raise e, fs)
      | None =>
          failing c fs
            (if interrupt c then Raise KeyboardInterrupt else Ok tt, fs)
      end
  | Log _ _ => (Ok tt, fs)
  end.

(** ** Programs *)

(** A computation: it returns, or makes a call and goes on with the
    outcome of the call. *)
Inductive prog (A : Type) : Type :=
| Ret (a : A)
| Vis (s : sys) (k : res (ret s) -> prog A).
Arguments Ret {A} a.
Arguments Vis {A} s k.

Fixpoint pbind {A B} (m : prog A) (f : A -> prog B) : prog B :=
  match m with
  | Ret a => f a
  | Vis s k => Vis s (fun r => pbind (k r) f)
  end.

(** A Python computation returns a value or raises. *)
Abbreviation M A := (prog (res A)) (only parsing).

Definition pure {A} (a : A) : M A := Ret (Ok a).
Definition raise {A} (e : exn) : M A := Ret (Raise e).

Definition bind {A B} (m : M A) (f : A -> M B) : M B :=
  pbind m (fun r => match r with Ok a => f a | Raise e => Ret (Raise e) end).

Declare Scope py_scope.
Delimit Scope py_scope with py.
Notation "x <- m ;; k" := (bind m (fun x => k))
  (at level 100, m at next level, right associativity) : py_scope.
Notation "m ;; k" := (bind m (fun _ => k))
  (at level 100, right associativity) : py_scope.
Local Open Scope py_scope.

(** [try: m except E: h]: [handler e] is [Some h] when a clause matches. *)
Definition try_except {A} (m : M A) (handler : exn -> option (M A)) : M A :=
  pbind m (fun r =>
    match r with
    | Ok a => Ret (Ok a)
    | Raise e => match handler e with Some h => h | None => Ret (Raise e) end
    end).

(** [try: m finally: f]. *)
Definition try_finally {A} (m : M A) (f : M unit) : M A :=
  pbind m (fun r =>
    pbind f (fun rf =>
      match rf with
      | Ok _ => Ret r
      | Raise e => Ret (Raise e)
      end)).

Definition call (s : sys) : M (ret s) := Vis s (fun r => Ret r).

Definition log (lvl : level) (msg : string) : M unit := call (Log lvl msg).

Definition when (b : bool) (m : M unit) : M unit :=
  if b then m else pure tt.

(** ** Running a program *)

(** What a call returned, for the record of a run. *)
Inductive value : Type :=
| VUnit
| VBool (b : bool)
| VStr (s : string)
| VPath (p : list string)
| VTime (d : datetime)
| VNat (n : nat)
| VProc (p : proc).

Definition reify (s : sys) : ret s -> value :=
  match s as s0 return ret s0 -> value with
  | PathExists _ => VBool
  | OsPathExists _ => VBool
  | IsSymlink _ => VBool
  | ReadBytes _ => VStr
  | ReadText _ => VStr
  | Mkdir _ => fun _ => VUnit
  | Mkstemp _ => VPath
  | WriteText _ _ => fun _ => VUnit
  | OpenExcl _ => fun _ => VUnit
  | Replace _ _ => fun _ => VUnit
  | Remove _ => fun _ => VUnit
  | Copy2 _ _ => fun _ => VUnit
  | MkSymlink _ _ => fun _ => VUnit
  | UtcNow => VTime
  | GetPid => VNat
  | Run _ _ _ => VProc
  | Sleep _ => fun _ => VUnit
  | Log _ _ => fun _ => VUnit
  end.

Definition observe (s : sys) (r : res (ret s)) : res value :=
  match r with
  | Ok a => Ok (reify s a)
  | Raise e => Raise e
  end.

(** An event: a call and its outcome. *)
Definition event : Type := sys * res value.

Record ran (A : Type) : Type := {
  result : A;
  disk : files;
  tick : nat;
  trace : list event
}.
Arguments result {A} r.
Arguments disk {A} r.
Arguments tick {A} r.
Arguments trace {A} r.

(** A run that makes no call. *)
Definition stop {A : Type} (a : A) (t : nat) (fs : files) : ran A :=
  {| result := a; disk := fs; tick := t; trace := [] |}.

(** The event of a call made only when [b] holds, and the tick after it. *)
Definition maybe_event (b : bool) (e : event) : list event :=
  if b then [e] else [].

Definition maybe_tick (b : bool) (t : nat) : nat :=
  if b then S t else t.

(** A run that starts with the event [e] and goes on as [r]. *)
Definition emit {A : Type} (e : event) (r : ran A) : ran A :=
  {| result := result r; disk := disk r; tick := tick r;
     trace := e :: trace r |}.

(** [run o t fs m]: the computation [m] on the disk [fs], its [n]-th call
    answered by [o (t + n)]. *)
Fixpoint run {A : Type} (o : nat -> choice) (t : nat) (fs : files) (m : prog A)
  : ran A :=
  match m with
  | Ret a => stop a t fs
  | Vis s k =>
      let '(r, fs') := handle (o t) fs s in
      emit (s, observe s r) (run o (S t) fs' (k r))
  end.

(** A run that starts with the events [tr] and goes on as [r]. *)
Definition prepend {A : Type} (tr : list event) (r : ran A) : ran A :=
  {| result := result r; disk := disk r; tick := tick r;
     trace := tr ++ trace r |}.

(** A run [r1] followed by the run [k] that its outcome starts. *)
Definition then_ {A B : Type} (r1 : ran A)
  (k : A -> nat -> files -> ran B) : ran B :=
  prepend (trace r1) (k (result r1) (tick r1) (disk r1)).

(** The same, but the process is killed after [n] calls: the disk it
    leaves behind. *)
Fixpoint killed_after {A : Type} (n : nat) (o : nat -> choice) (t : nat)
  (fs : files) (m : prog A) : files :=
  match n, m with
  | O, _ | _, Ret _ => fs
  | S n', Vis s k =>
      let '(r, fs') := handle (o t) fs s in
      killed_after n' o (S t) fs' (k r)
  end.

(** ** The Python runtime *)

(** [hashlib.md5] and [sys.executable] belong to the interpreter, not to
    the script: they are parameters of the development.  Of MD5 the
    script relies on one fact only, the form of [hexdigest()]. *)
Class Runtime : Type := {
  md5_state : Type;
  md5_new : md5_state;                             (* hashlib.md5() *)
  md5_update : md5_state -> string -> md5_state;   (* h.update(chunk) *)
  md5_hexdigest : md5_state -> string;             (* h.hexdigest() *)
  md5_hexdigest_form : forall h, is_fingerprint (md5_hexdigest h) = true;
  sys_executable : string
}.

Definition show_errno (e : errno) : string :=
  match e with
  | ENOENT => "No such file or directory"
  | EEXIST => "File exists"
  | EACCES => "Permission denied"
  | ENOSPC => "No space left on device"
  | EIO => "Input/output error"
  end.

Definition show_exn (e : exn) : string :=
  match e with
  | OSError n => show_errno n
  | TimeoutExpired => "timed out"
  | UnicodeDecodeError => "invalid start byte"
  | ValueError => "sleep length must be non-negative"
  | OverflowError => "timestamp too large to convert to C _PyTime_t"
  | KeyboardInterrupt => EmptyString
  end.

Definition show_Z (z : Z) : string :=
  if (z <? 0)%Z then "-" +:+ decimal (Z.to_nat (- z)) else decimal (Z.to_nat z).

Arguments strip : simpl never.
Arguments leads_nowhere : simpl never.
Arguments stat_error : simpl never.
Arguments sleep_error : simpl never.
Arguments decimal : simpl never.
Arguments show_Z : simpl never.
Arguments strftime_stamp : simpl never.
Arguments str : simpl never.

(** [current_md5 == last_md5], the right side an [Optional[str]]. *)
Definition eq_marker (current : string) (last : option string) : bool :=
  match last with
  | Some m => String.eqb current m
  | None => false
  end.

Record args : Type := {
  watch : bool;
  interval : Z;
  once : bool
}.

Section Script.

Context {rt : Runtime}.

(** The digest of [file_md5]: the file is read in chunks of 8192 bytes,
    each fed to the hash. *)
Definition md5_of (content : string) : string :=
  md5_hexdigest (fold_left md5_update (chunks 8192 content) md5_new).

Arguments md5_of : simpl never.

(** The two [mkdir] calls made when the module is loaded. *)
Definition module_init : M unit :=
  call (Mkdir MODELS_DIR);;
  call (Mkdir (parent DATA_PATH)).

Definition file_md5 (p : path) : M string :=
  content <- call (ReadBytes p);;
  pure (md5_of content).

Definition read_meta : M (option string) :=
  ex <- call (PathExists META_PATH);;
  if negb ex then pure None
  else
    text <- call (ReadText META_PATH);;
    pure (Some (strip text)).

Definition write_meta_atomic (md5 : string) : M unit :=
  call (Mkdir (parent META_PATH));;
  tmp <- call (Mkstemp (parent META_PATH));;
  try_finally
    (call (WriteText tmp md5);;
     call (Replace tmp META_PATH))
    (ex <- call (OsPathExists tmp);;
     if ex then
       try_except (call (Remove tmp))
         (fun e => if is_Exception e then Some (pure tt) else None)
     else pure tt).

Definition acquire_lock : M bool :=
  try_except
    (call (OpenExcl LOCKFILE);;
     pid <- call GetPid;;
     call (WriteText LOCKFILE (decimal pid +:+ newline));;
     pure true)
    (fun e =>
       if is_FileExistsError e then Some (pure false)
       else if is_Exception e then
         Some (log WARNING ("Could not acquire lock due to unexpected error: "
                            +:+ show_exn e);;
               pure false)
       else None).

Definition release_lock : M unit :=
  try_except
    (ex <- call (PathExists LOCKFILE);;
     if ex then call (Remove LOCKFILE) else pure tt)
    (fun e =>
       if is_Exception e then
         Some (log DEBUG ("Failed to remove lockfile: " +:+ show_exn e))
       else None).

Definition run_training_script (timeout : Z) : M proc :=
  ex <- call (PathExists TRAIN_SCRIPT);;
  if negb ex then raise (OSError ENOENT)
  else
    let env := [("PYTHONIOENCODING", "utf-8")] in
    let cmd := [sys_executable; str TRAIN_SCRIPT] in
    log INFO ("Launching training: " +:+ sys_executable +:+ " "
              +:+ str TRAIN_SCRIPT);;
    call (Run cmd env timeout).

Definition save_model_version (dst_dir src : path) : M (list string) :=
  ex <- call (PathExists src);;
  if negb ex then raise (OSError ENOENT)
  else
    now <- call UtcNow;;
    let ts := strftime_stamp now in
    let dst := dst_dir // ("model_" +:+ ts +:+ ".pkl") in
    call (Copy2 src dst);;
    let latest := dst_dir // "latest_model.pkl" in
    try_except
      (ex <- call (PathExists latest);;
       stale <- (if ex then pure true else call (IsSymlink latest));;
       (if stale then call (Remove latest) else pure tt);;
       try_except (call (MkSymlink (name dst) latest))
         (fun e => if is_OSError e then Some (call (Copy2 dst latest))
                   else None))
      (fun e =>
         if is_Exception e then
           Some (log WARNING ("Failed to update latest model pointer: "
                              +:+ show_exn e))
         else None);;
    pure dst.

Definition retrain_once : M bool :=
  ex <- call (PathExists DATA_PATH);;
  if negb ex then
    log WARNING ("No data file found at " +:+ str DATA_PATH);;
    pure false
  else
  checked <-
    try_except
      (current_md5 <- file_md5 DATA_PATH;; pure (Some current_md5))
      (fun e =>
         if is_Exception e then
           Some (log ERROR ("Failed to compute checksum of "
                            +:+ str DATA_PATH +:+ ": " +:+ show_exn e);;
                 pure None)
         else None);;
  match checked with
  | None => pure false
  | Some current_md5 =>
  last_md5 <- read_meta;;
  if eq_marker current_md5 last_md5 then
    log INFO "No data change detected. Retrain not required.";;
    pure false
  else
  log INFO "Data change detected. Starting retrain...";;
  launched <-
    try_except
      (proc <- run_training_script TRAIN_TIMEOUT;; pure (Some proc))
      (fun e =>
         if is_TimeoutExpired e then
           Some (log ERROR ("Training timed out after "
                            +:+ show_Z TRAIN_TIMEOUT +:+ " seconds");;
                 pure None)
         else if is_Exception e then
           Some (log ERROR ("Failed to launch training: " +:+ show_exn e);;
                 pure None)
         else None);;
  match launched with
  | None => pure false
  | Some proc =>
  when (nonempty (stdout proc))
    (log INFO ("Training stdout:" +:+ newline +:+ strip (stdout proc)));;
  when (nonempty (stderr proc))
    (log ERROR ("Training stderr:" +:+ newline +:+ strip (stderr proc)));;
  if negb (returncode proc =? 0)%Z then
    log ERROR ("Training failed with exit code " +:+ show_Z (returncode proc));;
    pure false
  else
  saved <-
    try_except
      (dst <- save_model_version MODELS_DIR MODEL_SRC;; pure (Some dst))
      (fun e =>
         if is_Exception e then
           Some (log ERROR ("Failed to save model: " +:+ show_exn e);;
                 pure None)
         else None);;
  match saved with
  | None => pure false
  | Some dst =>
  try_except (write_meta_atomic current_md5)
    (fun e =>
       if is_Exception e then
         Some (log ERROR ("Failed to write metadata: " +:+ show_exn e))
       else None);;
  log INFO ("Retrain complete. Model saved to " +:+ str dst);;
  pure true
  end end end.

(** One turn of the [while True] loop of [watch_loop]. *)
Definition watch_turn (interval : Z) : M unit :=
  locked <- acquire_lock;;
  (if locked then
     try_finally (retrain_once;; pure tt) release_lock
   else
     log INFO "Another retrain process is active; skipping this cycle.");;
  call (Sleep interval).

(** The loop itself never ends; [turns] bounds the number of turns that
    are followed. *)
Fixpoint watch_turns (turns : nat) (interval : Z) : M unit :=
  match turns with
  | O => pure tt
  | S n => watch_turn interval;; watch_turns n interval
  end.

Definition watch_loop (turns : nat) (interval : Z) : M unit :=
  log INFO ("Starting watch mode (poll every " +:+ show_Z interval
            +:+ " seconds). Ctrl-C to stop.");;
  try_except (watch_turns turns interval)
    (fun e =>
       if is_KeyboardInterrupt e then
         Some (log INFO "Watch mode stopped by user.")
       else None).

(** [main], after [argparse]: [a] holds the parsed flags. *)
Definition main (turns : nat) (a : args) : M unit :=
  if watch a then watch_loop turns (interval a)
  else
    locked <- acquire_lock;;
    if negb locked then
      log ERROR "Another retrain is already running (lockfile present). Exiting."
    else
      try_finally
        (if once a then
           log INFO "Forced run (--once): will retrain regardless of checksum.";;
           write_meta_atomic "__FORCE__";;
           retrain_once;;
           pure tt
         else
           retrain_once;;
           pure tt)
        release_lock.

End Script.

(** ** A runtime to compute with *)

Definition hex_digit (n : nat) : ascii :=
  let d := (n mod 16)%nat in
  if (d <? 10)%nat then ascii_of_nat (48 + d) else ascii_of_nat (87 + d).

Fixpoint hex_upto (width n : nat) (acc : string) : string :=
  match width with
  | O => acc
  | S w => hex_upto w (n / 16) (String (hex_digit n) acc)
  end.

Fixpoint byte_sum (s : string) : nat :=
  match s with
  | EmptyString => O
  | String a s' => (nat_of_ascii a + byte_sum s')%nat
  end.

Definition toy_runtime : Runtime.
Proof.
  refine {| md5_state := nat;
            md5_new := O;
            md5_update := fun h chunk => (h + byte_sum chunk + 1)%nat;
            md5_hexdigest := fun h => hex_upto 32 h EmptyString;
            sys_executable := "python3" |}.
  assert (Hd : forall n, is_hex (hex_digit n) = true).
  { intros n. unfold hex_digit.
    assert (Hlt : (n mod 16 < 16)%nat) by (apply Nat.mod_upper_bound; lia).
    remember (n mod 16)%nat as d. clear Heqd.
    do 16 (destruct d as [|d]; [reflexivity|]). lia. }
  assert (Hg : forall w n acc, string_forallb is_hex acc = true ->
             string_forallb is_hex (hex_upto w n acc) = true /\
             String.length (hex_upto w n acc) = (w + String.length acc)%nat).
  { induction w as [|w IH]; intros n acc Hacc; simpl; [done|].
    destruct (IH (n / 16)%nat (String (hex_digit n) acc)) as [H1 H2].
    - simpl. by rewrite Hd, Hacc.
    - split; [done|]. etrans; [exact H2|]. simpl. lia. }
  intros h. unfold is_fingerprint.
  destruct (Hg 32%nat h EmptyString eq_refl) as [H1 H2].
  rewrite H1, H2. reflexivity.
Defined.

(** ** Reading a trace *)

Local Open Scope list_scope.

Fixpoint path_eqb (p q : path) : bool :=
  match p, q with
  | [], [] => true
  | a :: p', b :: q' => String.eqb a b && path_eqb p' q'
  | _, _ => false
  end.

(** The call creates, changes or removes an entry of the directory [d]
    (or the directory itself). *)
Definition writes_in (d : path) (s : sys) : bool :=
  match s with
  | Mkdir p | Mkstemp p => path_eqb p d
  | WriteText p _ | OpenExcl p | Remove p | Copy2 _ p | MkSymlink _ p =>
      path_eqb (parent p) d
  | Replace src dst => path_eqb (parent src) d || path_eqb (parent dst) d
  | _ => false
  end.

(** The call changes the disk, whatever the directory. *)
Definition writes (s : sys) : bool :=
  match s with
  | Mkdir _ | Mkstemp _ | WriteText _ _ | OpenExcl _ | Replace _ _
  | Remove _ | Copy2 _ _ | MkSymlink _ _ => true
  | _ => false
  end.

(** The call starts a child process. *)
Definition launches (s : sys) : bool :=
  match s with Run _ _ _ => true | _ => false end.

(** A step of the metadata write: any write in the marker's directory. *)
Definition marker_step (s : sys) : bool := writes_in (parent META_PATH) s.

(** The event that saves a model version: the artifact copied into the
    version store, with success. *)
Definition saves (e : event) : bool :=
  match e with
  | (Copy2 src _, Ok _) => path_eqb src MODEL_SRC
  | _ => false
  end.

Definition failed (e : event) : bool := negb (is_ok e.2).

(** The same, for a trace that follows events among which a version was
    saved ([saved = true]) or not. *)
Definition marker_safe (saved : bool) (tr : list event) : Prop :=
  forall pre e post,
    tr = pre ++ e :: post ->
    marker_step e.1 = true ->
    saved = true \/ exists s, In s pre /\ saves s = true.

(** Every step of a metadata write comes after a saved version. *)
Definition save_precedes_marker (tr : list event) : Prop :=
  forall pre e post,
    tr = pre ++ e :: post ->
    marker_step e.1 = true ->
    exists s, In s pre /\ saves s = true.

(** The collaborator keeps to its contract: it writes nothing but the
    artifact. *)
Definition child_keeps (c : choice) : Prop :=
  forall (fs : files) (p : path),
    p <> MODEL_SRC -> child_effect c fs !! p = fs !! p.

Definition child_keeps_contract (o : nat -> choice) : Prop :=
  forall k, child_keeps (o k).

Definition LATEST : path := MODELS_DIR // "latest_model.pkl".

(** The versions of the store: the entries of [models/] but the pointer. *)
Definition versions (fs : files) : gset (list string) :=
  filter (fun p => parent p = MODELS_DIR /\ p <> LATEST) (dom fs).

(** The calls [write_meta_atomic] may make: steps of the metadata write,
    and looking whether the temporary file is still there. *)
Definition meta_call (s : sys) : bool :=
  match s with
  | Mkdir p | Mkstemp p => path_eqb p (parent META_PATH)
  | OsPathExists p | WriteText p _ | Remove p =>
      path_eqb (parent p) (parent META_PATH)
  | Replace src dst =>
      path_eqb (parent src) (parent META_PATH) && path_eqb dst META_PATH
  | _ => false
  end.

(** The event that puts a new marker in place. *)
Definition replaces_marker (e : event) : bool :=
  match e with
  | (Replace _ dst, Ok _) => path_eqb dst META_PATH
  | _ => false
  end.

Definition remove_failed (e : event) : bool :=
  match e with
  | (Remove _, Raise _) => true
  | _ => false
  end.


(** What a call of [write_meta_atomic s] on the disk [fs] comes to. *)
Definition meta_summary (s : string) (fs : files) (r : ran (res unit))
  : Prop :=
  Forall (fun e => meta_call e.1 = true) (trace r) /\
  (forall p, parent p <> parent META_PATH -> disk r !! p = fs !! p) /\
  match result r with
  | Ok _ =>
      disk r = <[META_PATH := File s]> fs /\
      Forall (fun e => is_ok e.2 = true) (trace r) /\
      Exists (fun e => replaces_marker e = true) (trace r)
  | Raise e =>
      is_Exception e = true /\
      disk r !! META_PATH = fs !! META_PATH /\
      Exists (fun e => marker_step e.1 && failed e = true) (trace r) /\
      Forall (fun e => replaces_marker e = false) (trace r) /\
      (Forall (fun e => remove_failed e = false) (trace r) -> disk r = fs)
  end.

(** The calls [save_model_version MODELS_DIR MODEL_SRC] may make. *)
Definition save_call (s : sys) : bool :=
  match s with
  | PathExists p => path_eqb p MODEL_SRC || path_eqb p LATEST
  | IsSymlink p => path_eqb p LATEST
  | UtcNow => true
  | Copy2 _ dst | Remove dst | MkSymlink _ dst =>
      path_eqb (parent dst) MODELS_DIR
  | Log WARNING _ => true
  | _ => false
  end.

(** What a call of [save_model_version MODELS_DIR MODEL_SRC] comes to. *)
Definition save_summary (fs : files) (r : ran (res (list string))) : Prop :=
  Forall (fun e => save_call e.1 = true) (trace r) /\
  (forall p, parent p <> MODELS_DIR -> disk r !! p = fs !! p) /\
  match result r with
  | Ok dst =>
      exists b,
        resolve fs MODEL_SRC = Some b /\
        parent dst = MODELS_DIR /\ dst <> LATEST /\
        disk r !! dst = Some (File b) /\
        (forall p, p <> dst -> p <> LATEST -> disk r !! p = fs !! p) /\
        In (Copy2 MODEL_SRC dst, Ok VUnit) (trace r) /\
        (forall d, In (Copy2 MODEL_SRC d, Ok VUnit) (trace r) -> d = dst)
  | Raise e =>
      is_Exception e = true /\
      Forall (fun e => saves e = false) (trace r)
  end.

(** The call may change the entry [p] of the disk.  For [Run] this is
    the collaborator's contract. *)
Definition touches (p : path) (s : sys) : bool :=
  match s with
  | Mkstemp d => path_eqb d (parent p)
  | WriteText q _ | OpenExcl q | Remove q | Copy2 _ q | MkSymlink _ q =>
      path_eqb q p
  | Replace a b => path_eqb a p || path_eqb b p
  | Run _ _ _ => path_eqb p MODEL_SRC
  | _ => false
  end.

(** The training of a cycle failed: the script is missing, the launch
    failed or timed out, or the child exited with a non-zero code. *)
Definition training_failed (tr : list event) : Prop :=
  In (PathExists TRAIN_SCRIPT, Ok (VBool false)) tr \/
  (exists cmd env timeout e, In (Run cmd env timeout, Raise e) tr) \/
  (exists cmd env timeout p,
     In (Run cmd env timeout, Ok (VProc p)) tr /\ returncode p <> 0%Z).

(** The call that ends a turn of the watch loop. *)
Definition turn_end (s : sys) : bool :=
  match s with Sleep _ => true | _ => false end.

(** The cycles of a trace: its parts between two [sleep]s. *)
Fixpoint cycles (tr : list event) : list (list event) :=
  match tr with
  | [] => [[]]
  | e :: tr' =>
      if turn_end e.1 then [] :: cycles tr'
      else
        match cycles tr' with
        | c :: cs => (e :: c) :: cs
        | [] => [[e]]
        end
  end.

(** What a call of [retrain_once] on the disk [fs] comes to, for the
    code around it. *)
Definition cycle_summary (o : nat -> choice) (fs : files) (r : ran (res bool))
  : Prop :=
  marker_safe false (trace r) /\
  Forall (fun e => touches LOCKFILE e.1 = false /\ turn_end e.1 = false)
    (trace r) /\
  (result r = Ok true <->
   exists dst, In (Copy2 MODEL_SRC dst, Ok VUnit) (trace r)) /\
  (forall tmp, In (Replace tmp META_PATH, Ok VUnit) (trace r) ->
     result r = Ok true) /\
  (child_keeps_contract o -> result r <> Ok true ->
   disk r !! META_PATH = fs !! META_PATH).

(** The event is no step of the metadata write and ends no turn. *)
Definition quiet (e : event) : Prop :=
  marker_step e.1 = false /\ turn_end e.1 = false.

(** The event starts no process and changes nothing: if it is a call
    that writes, the call failed. *)
Definition idle (e : event) : Prop :=
  launches e.1 = false /\ (writes e.1 = true -> failed e = true).

(** The flags of a forced run, [--once]. *)
Definition forced (i : Z) : args :=
  {| watch := false; interval := i; once := true |}.

(** The cycle took the training branch: it announced the retrain and
    went for the training script. *)
Definition retrains (tr : list event) : Prop :=
  In (Log INFO "Data change detected. Starting retrain...", Ok VUnit) tr /\
  exists b, In (PathExists TRAIN_SCRIPT, Ok (VBool b)) tr.

(** ** Concrete environments and disks *)

Definition dt0 : datetime :=
  {| year := 2024; month := 5; day := 17;
     hour := 9; minute := 30; second := 0 |}.

(** A child that trains and exits with 0. *)
Definition trained : proc :=
  {| returncode := 0; stdout := "ok"; stderr := EmptyString |}.

(** An environment in which nothing goes wrong: no call faults, and the
    child writes the artifact. *)
Definition calm : choice :=
  {| fault := None; partial := None; undecodable := false;
     rand := "a1b2c3d4"; clock := dt0; pid := 4242;
     child := Some trained;
     child_effect := fun fs => <[MODEL_SRC := File "weights"]> fs;
     interrupt := false |}.

Definition failing_with (e : errno) (k : option nat) (c : choice) : choice :=
  {| fault := Some e; partial := k; undecodable := undecodable c;
     rand := rand c; clock := clock c; pid := pid c; child := child c;
     child_effect := child_effect c; interrupt := interrupt c |}.

Definition always (c : choice) : nat -> choice := fun _ => c.

(** The environment [o], but the call number [n] meets the error [e]. *)
Definition fault_at (n : nat) (e : errno) (k : option nat)
  (o : nat -> choice) : nat -> choice :=
  fun t => if (t =? n)%nat then failing_with e k (o t) else o t.

(** The metadata write of a first cycle runs out of disk space. *)
Definition meta_fails : nat -> choice :=
  fault_at 16 ENOSPC (Some 5%nat) (always calm).

(** The write to the temporary file fails, and then its removal. *)
Definition cleanup_fails : nat -> choice :=
  fault_at 2 ENOSPC (Some 5%nat) (fault_at 4 EACCES None (always calm)).

(** In a forced run, the launch of the training fails. *)
Definition launch_fails : nat -> choice :=
  fault_at 16 EACCES None (always calm).

(** [--watch --interval 5]. *)
Definition watching : args :=
  {| watch := true; interval := 5; once := false |}.

(** A dataset and the training script, nothing else: a first run. *)
Definition fs_new : files :=
  <[DATA_PATH := File "a,b"]> (<[TRAIN_SCRIPT := File "print"]> ∅).

(** The same, after a cycle recorded the dataset. *)
Definition fs_same : files :=
  <[META_PATH := File ("000000000000000000000000000000f0" +:+ newline)]>
    fs_new.

(** The same as [fs_new], with a version of the very second of [dt0]. *)
Definition fs_taken : files :=
  <[MODELS_DIR // "model_20240517T093000Z.pkl" := File "old weights"]> fs_new.

(** A dataset without a training script. *)
Definition fs_bare : files := <[DATA_PATH := File "a,b"]> ∅.

Definition tmp0 : path := parent META_PATH // "tmpa1b2c3d4".
Definition version0 : path := MODELS_DIR // "model_20240517T093000Z.pkl".

(** ** More to read in a run *)

(** The chunks put together again. *)
Definition join_chunks (l : list string) : string :=
  fold_right String.append EmptyString l.

(** A warning was logged. *)
Definition warned (tr : list event) : Prop :=
  exists m, In (Log WARNING m, Ok VUnit) tr.

(** The marker file does not record the dataset [c]: it is absent, or
    holds something else than the fingerprint of [c]. *)
Definition stale_marker {rt : Runtime} (fs : files)
  (c : string) : Prop :=
  fs !! META_PATH = None \/
  exists m, fs !! META_PATH = Some (File m) /\
            String.eqb (md5_of c) (strip m) = false.

(** The sleep of a turn was interrupted by Ctrl-C. *)
Definition interrupted (e : event) : bool :=
  match e with (Sleep _, Raise KeyboardInterrupt) => true | _ => false end.

(** The failure [e] of one of the three calls that a cycle makes outside
    every [try] block: the existence check of the dataset, the existence
    check of the marker file, the reading of the marker file. *)
Definition unguarded (e : exn) (tr : list event) : Prop :=
  In (PathExists DATA_PATH, Raise e) tr \/
  In (PathExists META_PATH, Raise e) tr \/
  In (ReadText META_PATH, Raise e) tr.

(** The number of child processes started along a trace. *)
Definition launch_count (tr : list event) : nat :=
  List.length (List.filter (fun e => launches e.1) tr).

(** The path of the version saved at the time [d]. *)
Definition version_path (d : datetime) : path :=
  MODELS_DIR // ("model_" +:+ strftime_stamp d +:+ ".pkl").

(** A time [datetime.utcnow()] can return. *)
Definition valid_time (d : datetime) : Prop :=
  (year d < 100 * 100 /\ month d <= 12 /\ day d <= 31 /\
   hour d < 24 /\ minute d < 60 /\ second d < 60)%nat.

(** A single run, without [--once]. *)
Definition single : args :=
  {| watch := false; interval := 300; once := false |}.

(** One second after [dt0]. *)
Definition dt1 : datetime :=
  {| year := 2024; month := 5; day := 17;
     hour := 9; minute := 30; second := 1 |}.

Definition at_time (d : datetime) (c : choice) : choice :=
  {| fault := fault c; partial := partial c; undecodable := undecodable c;
     rand := rand c; clock := d; pid := pid c; child := child c;
     child_effect := child_effect c; interrupt := interrupt c |}.

(** A child that exits with 0 and writes nothing. *)
Definition idle_child (c : choice) : choice :=
  {| fault := fault c; partial := partial c; undecodable := undecodable c;
     rand := rand c; clock := clock c; pid := pid c; child := child c;
     child_effect := fun fs => fs; interrupt := interrupt c |}.

(** Writing the pid into the lock file fails. *)
Definition pid_write_fails : nat -> choice :=
  fault_at 2 ENOSPC None (always calm).

(** In a single run, the existence check of the dataset is refused. *)
Definition dataset_unreachable : nat -> choice :=
  fault_at 3 EACCES None (always calm).

(** The disk [fs_new] after a training. *)
Definition fs_trained : files := <[MODEL_SRC := File "weights"]> fs_new.

(** The disk [fs_new] with the fingerprint of its dataset recorded. *)
Definition fs_recorded : files :=
  <[META_PATH := File "000000000000000000000000000000f0"]> fs_new.

(** ** Two processes on one disk *)

(** Two attempts that run at the same time are two programs whose calls
    reach the same disk in some order.  [sched k] tells which of the two
    makes the call number [k], [false] for the first and [true] for the
    second, as long as both have calls to make.  Each event is recorded
    with the process that made the call. *)
Definition tagged : Type := bool * event.

Record raced (A B : Type) : Type := {
  first_result : A;
  second_result : B;
  shared : files;
  calls : list tagged
}.
Arguments first_result {A B} r.
Arguments second_result {A B} r.
Arguments shared {A B} r.
Arguments calls {A B} r.

(** A run of two processes that starts with the event [e] of the process
    [p] and goes on as [r]. *)
Definition tag {A B : Type} (p : bool) (e : event) (r : raced A B)
  : raced A B :=
  {| first_result := first_result r; second_result := second_result r;
     shared := shared r; calls := (p, e) :: calls r |}.

(** The second process has returned [b]: the first goes on alone. *)
Definition first_alone {A B : Type} (b : B) (r : ran A) : raced A B :=
  {| first_result := result r; second_result := b; shared := disk r;
     calls := List.map (pair false) (trace r) |}.

(** The first process has returned [a]: the second goes on alone. *)
Definition second_alone {A B : Type} (a : A) (r : ran B) : raced A B :=
  {| first_result := a; second_result := result r; shared := disk r;
     calls := List.map (pair true) (trace r) |}.

(** [race sched o m1 m2 t fs]: the programs [m1] and [m2] on the disk
    [fs], their calls interleaved as [sched] says, the call number [n] of
    the run answered by [o (t + n)]. *)
Fixpoint race {A B : Type} (sched : nat -> bool) (o : nat -> choice)
  (m1 : prog A) : prog B -> nat -> files -> raced A B :=
  fix rest (m2 : prog B) : nat -> files -> raced A B :=
    fun t fs =>
      match m1, m2 with
      | Ret a, _ => second_alone a (run o t fs m2)
      | Vis _ _, Ret b => first_alone b (run o t fs m1)
      | Vis s1 k1, Vis s2 k2 =>
          if sched t then
            let '(r, fs') := handle (o t) fs s2 in
            tag true (s2, observe s2 r) (rest (k2 r) (S t) fs')
          else
            let '(r, fs') := handle (o t) fs s1 in
            tag false (s1, observe s1 r) (race sched o (k1 r) m2 (S t) fs')
      end.

(** The event takes the lock: the token is created. *)
Definition takes (e : event) : bool :=
  match e with
  | (OpenExcl p, Ok _) => path_eqb p LOCKFILE
  | _ => false
  end.

(** The event gives the lock up: the token is removed. *)
Definition gives_up (e : event) : bool :=
  match e with
  | (Remove p, Ok _) => path_eqb p LOCKFILE
  | _ => false
  end.

(** The call can change nothing and starts nothing: it is no call that
    writes or launches, or it is the creation of the token, refused. *)
Definition harmless (e : event) : bool :=
  match e with
  | (OpenExcl p, Raise _) => path_eqb p LOCKFILE
  | (s, _) => negb (writes s) && negb (launches s)
  end.

(** Who holds the lock, if any, after the event [e] of the process [p],
    when [h] held it before. *)
Definition holder_after (h : option bool) (p : bool) (e : event)
  : option bool :=
  if takes e then Some p else if gives_up e then None else h.

(** Mutual exclusion along a run of two processes, [h] holding the lock
    at the start: the lock is taken only when nobody holds it, and a
    process that does not hold it makes harmless calls only, until it
    takes the lock itself. *)
Fixpoint exclusive (h : option bool) (tr : list tagged) : Prop :=
  match tr with
  | [] => True
  | (p, e) :: tr' =>
      (takes e = true -> h = None) /\
      (h <> Some p -> takes e = true \/ harmless e = true) /\
      exclusive (holder_after h p e) tr'
  end.

(** *** The lock discipline of a program *)

(** The calls of the lock functions on the token. *)
Definition on_token (s : sys) : bool :=
  match s with
  | OpenExcl p | WriteText p _ | Remove p => path_eqb p LOCKFILE
  | _ => false
  end.

(** What the discipline lets a process call: when it holds the lock,
    whatever leaves the token alone, and the calls of the lock functions;
    when it does not, nothing that writes or launches, but the attempt to
    create the token. *)
Definition allowed (holding : bool) (s : sys) : bool :=
  if holding then negb (touches LOCKFILE s) || on_token s
  else
    negb (writes s) && negb (launches s) ||
    match s with OpenExcl p => path_eqb p LOCKFILE | _ => false end.

(** Whether the process holds the lock after the call [s], which
    succeeded ([ok]) or not. *)
Definition holding_after (holding : bool) (s : sys) (ok : bool) : bool :=
  match s with
  | OpenExcl p => if path_eqb p LOCKFILE && ok then true else holding
  | Remove p => if path_eqb p LOCKFILE && ok then false else holding
  | _ => holding
  end.

(** The program [m], started holding the lock or not, makes allowed
    calls only, whatever the environment answers and whatever is on the
    disk, and ends in a state that satisfies [Q]. *)
Fixpoint disciplined {A : Type} (holding : bool) (m : prog A)
  (Q : A -> bool -> Prop) : Prop :=
  match m with
  | Ret a => Q a holding
  | Vis s k =>
      allowed holding s = true /\
      forall c fs,
        let r := (handle c fs s).1 in
        disciplined (holding_after holding s (is_ok r)) (k r) Q
  end.

(** Every call the program can make satisfies [P]. *)
Fixpoint every_call {A : Type} (P : sys -> bool) (m : prog A) : Prop :=
  match m with
  | Ret _ => True
  | Vis s k => P s = true /\ forall c fs, every_call P (k (handle c fs s).1)
  end.

(** Which of the two processes hold the lock: the pair of their states,
    and the state of the process [p] in it. *)
Definition state_of (p : bool) (hs : bool * bool) : bool :=
  if p then hs.2 else hs.1.

Definition with_state (p : bool) (h : bool) (hs : bool * bool)
  : bool * bool :=
  if p then (hs.1, h) else (h, hs.2).

Definition holder (hs : bool * bool) : option bool :=
  if hs.1 then Some false else if hs.2 then Some true else None.

(** At most one process holds the lock, and the token is on the disk
    when one does. *)
Definition lock_inv (fs : files) (hs : bool * bool) : Prop :=
  hs.1 && hs.2 = false /\
  (hs.1 || hs.2 = true -> is_Some (fs !! LOCKFILE)).

(** The calls of two processes taken in turn, the first process
    first. *)
Definition in_turn : nat -> bool := Nat.odd.

(** ** Running composed programs *)

Lemma run_pbind {A B : Type} o t fs (m : prog A) (f : A -> prog B) :
  run o t fs (pbind m f) =
  then_ (run o t fs m) (fun a t' fs' => run o t' fs' (f a)).
Proof.
  revert t fs. induction m as [a|s k IH]; intros t fs; simpl.
  - unfold then_, prepend; simpl. by destruct (run o t fs (f a)).
  - destruct (handle (o t) fs s) as [r fs']. rewrite IH. reflexivity.
Qed.

Lemma run_bind {A B : Type} o t fs (m : M A) (f : A -> M B) :
  run o t fs (bind m f) =
  then_ (run o t fs m)
    (fun r t' fs' =>
       match r with
       | Ok a => run o t' fs' (f a)
       | Raise e => stop (Raise e) t' fs'
       end).
Proof.
  unfold bind. rewrite run_pbind. unfold then_. f_equal.
  by destruct (result (run o t fs m)).
Qed.

Lemma run_try_except {A : Type} o t fs (m : M A) h :
  run o t fs (try_except m h) =
  then_ (run o t fs m)
    (fun r t' fs' =>
       match r with
       | Ok a => stop (Ok a) t' fs'
       | Raise e =>
           match h e with
           | Some k => run o t' fs' k
           | None => stop (Raise e) t' fs'
           end
       end).
Proof.
  unfold try_except. rewrite run_pbind. unfold then_. f_equal.
  destruct (result (run o t fs m)) as [a|e]; [done|]. by destruct (h e).
Qed.

Lemma run_try_finally {A : Type} o t fs (m : M A) f :
  run o t fs (try_finally m f) =
  then_ (run o t fs m)
    (fun r t' fs' =>
       then_ (run o t' fs' f)
         (fun rf t'' fs'' =>
            match rf with
            | Ok _ => stop r t'' fs''
            | Raise e => stop (Raise e) t'' fs''
            end)).
Proof.
  unfold try_finally. rewrite run_pbind. unfold then_. f_equal.
  rewrite run_pbind. unfold then_. f_equal.
  by destruct (result (run o (tick (run o t fs m)) (disk (run o t fs m)) f)).
Qed.

Lemma resolve_unfold (fs : files) p :
  resolve fs p =
  match fs !! p with
  | Some (File c) => Some c
  | Some (Symlink t) =>
      match fs !! (parent p // t) with
      | Some (File c) => Some c
      | _ => None
      end
  | None => None
  end.
Proof. reflexivity. Qed.

Lemma path_eqb_eq p q : path_eqb p q = true <-> p = q.
Proof.
  revert q. induction p as [|a p IH]; intros [|b q]; simpl; try done.
  rewrite andb_true_iff, String.eqb_eq, IH. split.
  - by intros [-> ->].
  - by intros [= -> ->].
Qed.

Lemma path_eqb_neq p q : path_eqb p q = false <-> p <> q.
Proof.
  rewrite <- path_eqb_eq. by destruct (path_eqb p q).
Qed.

(** *** Symbolic execution of a run *)

Ltac path_neq :=
  cbv [LATEST META_PATH DATA_PATH MODELS_DIR MODEL_SRC TRAIN_SCRIPT LOCKFILE
       join parent removelast app String.append];
  congruence.

Ltac lookups :=
  repeat match goal with
  | |- context [insert ?k ?v ?m !! ?k] => rewrite (lookup_insert_eq m k v)
  | |- context [delete ?k ?m !! ?k] => rewrite (lookup_delete_eq m k)
  | |- context [insert ?k ?v ?m !! ?q] =>
      rewrite (lookup_insert_ne m k q v) by path_neq
  | |- context [delete ?k ?m !! ?q] =>
      rewrite (lookup_delete_ne m k q) by path_neq
  end.

Ltac open_resolve :=
  match goal with
  | |- context [resolve (insert ?k ?v ?m) ?p] =>
      rewrite (resolve_unfold (insert k v m) p)
  | |- context [resolve (delete ?k ?m) ?p] =>
      rewrite (resolve_unfold (delete k m) p)
  end.

Ltac reuse :=
  match goal with
  | H : ?x = _ |- context [match ?x with _ => _ end] =>
      tryif is_var x then fail else rewrite H
  end.

Ltac split_match :=
  match goal with
  | |- context [match fault ?c with _ => _ end] => destruct (fault c) eqn:?
  | |- context [match partial ?c with _ => _ end] => destruct (partial c) eqn:?
  | |- context [match child ?c with _ => _ end] => destruct (child c) eqn:?
  | |- context [match ?x with _ => _ end] =>
      lazymatch type of x with
      | prod _ _ => fail
      | _ =>
          lazymatch x with
          | context [match _ with _ => _ end] => fail
          | context [run _ _ _ _] => fail
          | context [killed_after _ _ _ _ _] => fail
          | _ => destruct x eqn:?
          end
      end
  | |- context [killed_after ?n _ _ _ _] => is_var n; destruct n
  end.

Ltac step :=
  first [ progress simpl
        | progress (unfold exists_, is_symlink)
        | open_resolve
        | progress lookups
        | reuse
        | split_match ].

Ltac frame_with Hp :=
  repeat first
    [ rewrite lookup_insert_ne by (intros <-; apply Hp; reflexivity)
    | rewrite lookup_delete_ne by (intros <-; apply Hp; reflexivity) ].

Ltac in_cases H :=
  simpl in H;
  repeat (destruct H as [H|H]; [try (by simplify_eq)|]);
  try (by destruct H).

Ltac map_ext :=
  apply map_eq; intros ?q;
  repeat match goal with
  | |- context [insert ?k _ _ !! ?q] =>
      destruct (decide (k = q)) as [<-|?];
      [rewrite ?lookup_insert_eq, ?lookup_delete_eq
      |rewrite (lookup_insert_ne _ k q) by assumption]
  | |- context [delete ?k _ !! ?q] =>
      destruct (decide (k = q)) as [<-|?];
      [rewrite ?lookup_insert_eq, ?lookup_delete_eq
      |rewrite (lookup_delete_ne _ k q) by assumption]
  end; lookups; try congruence.

Section Summaries.

Context {rt : Runtime}.

Lemma write_meta_atomic_summary o t fs s :
  meta_summary s fs (run o t fs (write_meta_atomic s)).
Proof.
  remember (meta_summary s fs) as P eqn:HP.
  unfold write_meta_atomic.
  repeat step.
  all: subst P; unfold meta_summary; simpl.
  all: split; [repeat constructor|].
  all: split; [intros p Hp; lookups; frame_with Hp; reflexivity|].
  all: try (split; [reflexivity|]).
  all: repeat split; lookups; try done.
  all: try (by repeat first [apply Exists_cons_hd; reflexivity
                            | apply Exists_cons_tl]).
  all: try (repeat constructor; fail).
  all: try (intros HF; repeat (apply Forall_cons in HF as [? HF]);
            try discriminate).
  all: map_ext.
Qed.

Lemma save_model_version_summary o t fs :
  save_summary fs (run o t fs (save_model_version MODELS_DIR MODEL_SRC)).
Proof.
  remember (save_summary fs) as P eqn:HP.
  unfold save_model_version.
  repeat step.
  all: subst P; unfold save_summary; simpl.
  all: split; [repeat constructor|].
  all: split; [intros p Hp; frame_with Hp; reflexivity|].
  all: try (split; [reflexivity|repeat constructor]; fail).
  all: eexists; split; [eassumption|].
  all: split; [reflexivity|].
  all: split; [path_neq|].
  all: split; [lookups; reflexivity|].
  all: split; [intros p Hp1 Hp2; unfold LATEST, MODELS_DIR in Hp2;
               simpl in Hp2; lookups;
               repeat first [ rewrite lookup_insert_ne by congruence
                            | rewrite lookup_delete_ne by congruence ];
               reflexivity|].
  all: split; [simpl; tauto|].
  all: intros d Hd; unfold MODEL_SRC in *; in_cases Hd.
Qed.

End Summaries.

(** ** Entries a run leaves alone *)

Lemma handle_untouched c fs s p :
  touches p s = false -> child_keeps c ->
  (handle c fs s).2 !! p = fs !! p.
Proof.
  intros Ht Hc.
  destruct s; simpl in *;
    repeat match goal with
    | |- context [match ?x with _ => _ end] => destruct x eqn:?
    end; simpl; try reflexivity;
    rewrite ?orb_false_iff in Ht; rewrite ?path_eqb_neq in Ht.
  all: try (rewrite lookup_insert_ne by tauto; try reflexivity).
  all: try (rewrite lookup_delete_ne by tauto; try reflexivity).
  all: try (apply Hc; tauto).
  all: try (rewrite lookup_insert_ne; [reflexivity|]; intros <-; apply Ht;
            unfold parent; by rewrite removelast_last).
Qed.

Lemma run_untouched {A : Type} o t fs (m : prog A) p :
  child_keeps_contract o ->
  Forall (fun e => touches p e.1 = false) (trace (run o t fs m)) ->
  disk (run o t fs m) !! p = fs !! p.
Proof.
  intros Hc. revert t fs.
  induction m as [a|s k IH]; intros t fs; simpl; [done|].
  pose proof (handle_untouched (o t) fs s p) as Hh.
  destruct (handle (o t) fs s) as [r fs']. simpl in *.
  intros HF. apply Forall_cons in HF as [Hs HF]. simpl in Hs.
  rewrite IH by exact HF. by apply Hh.
Qed.

Lemma killed_after_untouched {A : Type} n o t fs (m : prog A) p :
  child_keeps_contract o ->
  Forall (fun e => touches p e.1 = false) (trace (run o t fs m)) ->
  killed_after n o t fs m !! p = fs !! p.
Proof.
  intros Hc. revert t fs m. induction n as [|n IH]; intros t fs m HF.
  - by destruct m.
  - destruct m as [a|s k]; simpl in *; [done|].
    pose proof (handle_untouched (o t) fs s p) as Hh.
    destruct (handle (o t) fs s) as [r fs']. simpl in *.
    apply Forall_cons in HF as [Hs HF]. simpl in Hs.
    rewrite (IH (S t) fs' (k r) HF). by apply Hh.
Qed.

(** ** Markers and [strip] *)

Lemma hex_not_space a : is_hex a = true -> isspace a = false.
Proof.
  destruct a as [[] [] [] [] [] [] [] []]; vm_compute; congruence.
Qed.

Lemma lstrip_fixed s :
  string_forallb is_hex s = true -> lstrip s = s.
Proof.
  destruct s as [|a s]; simpl; [done|].
  intros [Ha _]%andb_true_iff. by rewrite (hex_not_space a Ha).
Qed.

Lemma rstrip_fixed s :
  string_forallb is_hex s = true -> rstrip s = s.
Proof.
  induction s as [|a s IH]; simpl; [done|].
  intros [Ha Hs]%andb_true_iff. rewrite (IH Hs).
  destruct s; [|done]. by rewrite (hex_not_space a Ha).
Qed.

Lemma strip_fingerprint s : is_fingerprint s = true -> strip s = s.
Proof.
  unfold is_fingerprint, strip. intros [Hs _]%andb_true_iff.
  by rewrite (lstrip_fixed s Hs), (rstrip_fixed s Hs).
Qed.

(** ** The metadata store *)

Section MetadataStore.

Context {rt : Runtime}.

(** C9: a fingerprint written by [write_meta_atomic] and read back by
    [read_meta] comes back unchanged: when the write returns and the read
    does not fail (neither its existence check nor the reading of the
    file), [read_meta] returns exactly the string written. *)
Theorem marker_roundtrip o t fs s o' t' :
  is_fingerprint s = true ->
  let w := run o t fs (write_meta_atomic s) in
  result w = Ok tt ->
  let r := run o' t' (disk w) read_meta in
  (forall e, ~ In (PathExists META_PATH, Raise e) (trace r)) ->
  (forall e, ~ In (ReadText META_PATH, Raise e) (trace r)) ->
  result r = Ok (Some s).
Proof.
  intros Hs w Hw r. subst r.
  pose proof (write_meta_atomic_summary o t fs s) as (_ & _ & Hsum).
  fold w in Hsum. rewrite Hw in Hsum. destruct Hsum as (-> & _).
  unfold read_meta. repeat step; intros Hex Hread.
  all: try (by exfalso; eapply Hex; simpl; eauto).
  all: try (by exfalso; eapply Hread; simpl; eauto).
  by rewrite (strip_fingerprint s Hs).
Qed.


End MetadataStore.

(** ** Symbolic execution through the summaries *)

Opaque save_model_version write_meta_atomic.

Ltac split_run :=
  match goal with
  | |- context [run ?o ?t ?fs (bind ?m ?k)] =>
      first [rewrite (run_bind o t fs m k) | rewrite run_bind]; unfold then_
  | |- context [run ?o ?t ?fs (try_except ?m ?h)] =>
      first [rewrite (run_try_except o t fs m h) | rewrite run_try_except];
      unfold then_
  | |- context [run ?o ?t ?fs (try_finally ?m ?f)] =>
      first [rewrite (run_try_finally o t fs m f) | rewrite run_try_finally];
      unfold then_
  | |- context [run ?o ?t ?fs (pbind ?m ?k)] =>
      first [rewrite (run_pbind o t fs m k) | rewrite run_pbind]; unfold then_
  end.

Ltac call_summary :=
  match goal with
  | |- context [run ?o ?t ?fs (save_model_version ?d ?s)] =>
      let H := fresh "Hsave" in
      pose proof (save_model_version_summary o t fs) as H;
      destruct (run o t fs (save_model_version d s)) as [? ? ? ?];
      unfold save_summary in H; simpl in H; destruct H as (? & ? & ?)
  | |- context [run ?o ?t ?fs (write_meta_atomic ?s)] =>
      let H := fresh "Hmeta" in
      pose proof (write_meta_atomic_summary o t fs s) as H;
      destruct (run o t fs (write_meta_atomic s)) as [? ? ? ?];
      unfold meta_summary in H; simpl in H; destruct H as (? & ? & ?)
  end.

(** One step of symbolic execution; [known_call] is extended below as
    more functions get a summary. *)
Ltac known_call := call_summary.

Ltac walk := first [ step | known_call | split_run ].

(** A conditional log line does not change the course of a run: it is
    kept as a whole instead of being split in two cases. *)
Lemma run_when_log o t fs b lvl msg :
  run o t fs (when b (log lvl msg)) =
  {| result := Ok tt; disk := fs; tick := maybe_tick b t;
     trace := maybe_event b (Log lvl msg, Ok VUnit) |}.
Proof. by destruct b. Qed.

Ltac when_log :=
  match goal with
  | |- context [run ?o ?t ?fs (when ?b (log ?lvl ?msg))] =>
      rewrite (run_when_log o t fs b lvl msg)
  end.

Ltac known_call ::= first [ when_log | call_summary ].

(** *** Reading the trace at the end of a run *)

Ltac hide_post :=
  match goal with
  | |- context [run ?o ?t ?fs ?m] =>
      pattern (run o t fs m);
      match goal with
      | |- ?Q _ => let P := fresh "P" in remember Q as P
      end
  end.

Ltac absurd_in H :=
  match type of H with
  | In _ ?tr =>
      match goal with
      | HF : Forall ?Q tr |- _ =>
          let H' := fresh in
          pose proof (proj1 (List.Forall_forall Q tr) HF _ H) as H';
          simpl in H'; discriminate
      end
  end.

Ltac in_trace H :=
  simpl in H; rewrite ?app_nil_r in H;
  repeat first
    [ apply List.in_app_iff in H as [H|H]
    | match type of H with
      | In _ (maybe_event ?b _) => destruct b; simpl in H
      end
    | destruct H as [H|H]; [try discriminate H|] ];
  try (by destruct H); try absurd_in H.

(** ** One cycle *)

Ltac open_cycle :=
  unfold retrain_once, file_md5, read_meta, run_training_script.

Lemma versions_ext (fs1 fs2 : gmap (list string) node) :
  (forall p, parent p = MODELS_DIR -> fs1 !! p = fs2 !! p) ->
  versions fs1 = versions fs2.
Proof.
  intros H. apply set_eq. intros p. unfold versions.
  rewrite !elem_of_filter, !elem_of_dom.
  split; intros [[Hp Hl] Hs]; (split; [done|]); [rewrite <- H|rewrite H]; done.
Qed.

Lemma models_not_src p : parent p = MODELS_DIR -> p <> MODEL_SRC.
Proof. by intros H ->. Qed.

Ltac forall_trace :=
  repeat match goal with
  | |- Forall _ [] => constructor
  | |- Forall _ (_ :: _) => constructor; [simpl; try done|]
  | |- Forall _ (_ ++ _) => apply Forall_app_2
  | |- Forall _ (maybe_event ?b _) => destruct b; simpl
  end.

Ltac find_in :=
  first
    [ eassumption
    | match goal with
      | |- _ \/ _ => first [left; reflexivity | right; find_in]
      | |- In _ (_ :: _) => first [left; reflexivity | right; find_in]
      | |- In _ (_ ++ _) =>
          apply List.in_or_app; first [left; find_in | right; find_in]
      end ].

Lemma safe_nil b : marker_safe b [].
Proof. intros [|? ?] x post H; discriminate H. Qed.

Lemma safe_true tr : marker_safe true tr.
Proof. intros pre x post _ _. by left. Qed.

Lemma safe_mono b tr : marker_safe false tr -> marker_safe b tr.
Proof.
  intros H pre x post Htr He. right.
  by destruct (H pre x post Htr He) as [?|?].
Qed.

Lemma safe_cons b e tr :
  marker_step e.1 = false \/ b = true ->
  marker_safe (b || saves e) tr -> marker_safe b (e :: tr).
Proof.
  intros He Htr pre x post Heq Hx.
  destruct pre as [|y pre]; simpl in Heq; injection Heq as <- Heq.
  - destruct He as [He|He]; [congruence|by left].
  - destruct (Htr pre x post Heq Hx) as [Hs|(s & Hin & Hs)].
    + apply orb_true_iff in Hs as [Hs|Hs]; [by left|].
      right. exists e. split; [by left|done].
    + right. exists s. split; [by right|done].
Qed.

Lemma safe_app b tr1 tr2 :
  marker_safe b tr1 ->
  marker_safe (b || existsb saves tr1) tr2 ->
  marker_safe b (tr1 ++ tr2).
Proof.
  revert b. induction tr1 as [|e tr1 IH]; intros b H1 H2; simpl in *.
  - by rewrite orb_false_r in H2.
  - intros pre x post Heq Hx.
    destruct pre as [|y pre]; simpl in Heq; injection Heq as <- Heq.
    + apply (H1 [] e tr1 eq_refl Hx).
    + assert (H1' : marker_safe (b || saves e) tr1).
      { intros pre' x' post' Heq' Hx'.
        destruct (H1 (e :: pre') x' post') as [?|(s & [<-|Hin] & Hs)];
          [by rewrite Heq'|done|by left; apply orb_true_iff; left
          |by left; apply orb_true_iff; right|].
        right. by exists s. }
      rewrite orb_assoc in H2.
      destruct (IH _ H1' H2 pre x post Heq Hx) as [Hs|(s & Hin & Hs)].
      * apply orb_true_iff in Hs as [Hs|Hs]; [by left|].
        right. exists e. split; [by left|done].
      * right. exists s. split; [by right|done].
Qed.

Lemma safe_quiet b tr :
  Forall (fun e => marker_step e.1 = false) tr -> marker_safe b tr.
Proof.
  intros HF pre x post -> He.
  apply List.Forall_app in HF as [_ HF].
  apply List.Forall_cons_iff in HF as [HF _]. congruence.
Qed.

Lemma safe_precedes tr : marker_safe false tr -> save_precedes_marker tr.
Proof.
  intros H pre x post Htr He.
  by destruct (H pre x post Htr He) as [?|?].
Qed.

Lemma precedes_safe tr : save_precedes_marker tr -> marker_safe false tr.
Proof. intros H pre x post Htr He. right. by apply (H pre x post). Qed.

Lemma save_call_quiet s : save_call s = true -> marker_step s = false.
Proof.
  destruct s; simpl; try done.
  all: unfold marker_step; simpl; intros H; try done.
  all: apply path_eqb_eq in H; by rewrite H.
Qed.

Lemma existsb_saves_in tr dst :
  In (Copy2 MODEL_SRC dst, Ok VUnit) tr -> existsb saves tr = true.
Proof.
  intros H. apply List.existsb_exists. eexists. split; [exact H|]. done.
Qed.

Lemma existsb_saves_log b lvl msg :
  existsb saves (maybe_event b (Log lvl msg, Ok VUnit)) = false.
Proof. by destruct b. Qed.

Lemma safe_log c b lvl msg :
  marker_safe c (maybe_event b (Log lvl msg, Ok VUnit)).
Proof. apply safe_quiet. destruct b; by repeat constructor. Qed.

Lemma safe_save_calls c tr :
  Forall (fun e => save_call e.1 = true) tr -> marker_safe c tr.
Proof.
  intros H. apply safe_quiet. eapply Forall_impl; [exact H|].
  intros [s v]. apply save_call_quiet.
Qed.

Ltac open_hyps :=
  repeat match goal with
  | H : exists _, _ |- _ => destruct H as (? & H)
  | H : _ /\ _ |- _ => destruct H as (? & H)
  end.

Ltac safe_trace :=
  repeat first
    [ apply safe_true
    | apply safe_nil
    | by apply safe_save_calls
    | apply safe_cons; [by left|simpl]
    | rewrite existsb_saves_log; simpl
    | match goal with
      | H : In (Copy2 MODEL_SRC ?a, Ok VUnit) ?tr
        |- context [existsb saves ?tr] =>
          rewrite (existsb_saves_in tr a H); simpl
      end
    | apply safe_app;
      [ first [ apply safe_log | by apply safe_save_calls ] | simpl ] ].

Lemma versions_add (fs fs' : gmap (list string) node) dst n :
  parent dst = MODELS_DIR -> dst <> LATEST ->
  fs' !! dst = Some n ->
  (forall p, parent p = MODELS_DIR -> p <> dst -> p <> LATEST ->
     fs' !! p = fs !! p) ->
  versions fs' = {[dst]} ∪ versions fs.
Proof.
  intros Hd Hl Hn Hframe. apply set_eq. intros p. unfold versions.
  rewrite elem_of_union, elem_of_singleton, !elem_of_filter, !elem_of_dom.
  split.
  - intros [[Hp Hpl] Hs]. destruct (decide (p = dst)) as [->|Hne]; [by left|].
    right. split; [done|]. by rewrite <- Hframe.
  - intros [->|[[Hp Hpl] Hs]]; [by rewrite Hn|].
    split; [done|]. destruct (decide (p = dst)) as [->|Hne]; [by rewrite Hn|].
    by rewrite Hframe.
Qed.

Lemma versions_fresh (fs : gmap (list string) node) dst :
  fs !! dst = None ->
  size ({[dst]} ∪ versions fs) = S (size (versions fs)).
Proof.
  intros Hd. rewrite size_union, size_singleton; [done|].
  apply disjoint_singleton_l. unfold versions.
  rewrite elem_of_filter, elem_of_dom, Hd. by intros [_ [? ?]].
Qed.

(** The failed event [H] of a trace is no step of the metadata write,
    against [Hs]. *)
Ltac quiet_in H Hs :=
  in_trace H;
  try (injection H as <- <-; discriminate Hs);
  try match goal with
      | HF : Forall (fun e => save_call e.1 = true) ?tr |- _ =>
          match type of H with
          | In _ tr =>
              let Hq := fresh in
              pose proof (proj1 (List.Forall_forall _ tr) HF _ H) as Hq;
              simpl in Hq; apply save_call_quiet in Hq; congruence
          end
      end.

Ltac not_lock :=
  intros H; split; [|done];
  apply not_true_is_false; intros Ht;
  rewrite ?andb_true_iff, ?orb_true_iff, ?path_eqb_eq in *;
  unfold LOCKFILE, META_PATH, MODELS_DIR in *;
  repeat match goal with
         | H : _ /\ _ |- _ => destruct H
         | H : _ \/ _ |- _ => destruct H
         end;
  subst; discriminate.

Lemma meta_call_not_lock s :
  meta_call s = true -> touches LOCKFILE s = false /\ turn_end s = false.
Proof. destruct s; simpl; try done; not_lock. Qed.

Lemma save_call_not_lock s :
  save_call s = true -> touches LOCKFILE s = false /\ turn_end s = false.
Proof. destruct s; simpl; try done; try not_lock. Qed.

Section Cycle.

Context {rt : Runtime}.

(** Within a cycle, every step of the metadata write comes after the
    version was saved. *)
Lemma retrain_once_order o t fs :
  marker_safe false (trace (run o t fs retrain_once)).
Proof.
  hide_post. open_cycle.
  repeat walk.
  all: subst P; simpl; rewrite ?app_nil_r; open_hyps.
  all: safe_trace.
Qed.

(** A cycle leaves the lock alone and does not sleep. *)
Lemma retrain_once_calls o t fs :
  Forall (fun e => touches LOCKFILE e.1 = false /\ turn_end e.1 = false)
    (trace (run o t fs retrain_once)).
Proof.
  hide_post. open_cycle.
  repeat walk.
  all: subst P; simpl; rewrite ?app_nil_r; open_hyps.
  all: forall_trace.
  all: match goal with
       | H : Forall (fun e => save_call e.1 = true) ?tr |- Forall _ ?tr =>
           eapply Forall_impl; [exact H|]; intros [? ?];
           apply save_call_not_lock
       | H : Forall (fun e => meta_call e.1 = true) ?tr |- Forall _ ?tr =>
           eapply Forall_impl; [exact H|]; intros [? ?];
           apply meta_call_not_lock
       end.
Qed.

(** A cycle returns [True] exactly when it saved a version; it replaces
    the marker only then, and otherwise leaves the marker file alone. *)
Lemma retrain_once_outcome o t fs :
  let r := run o t fs retrain_once in
  (result r = Ok true <->
   exists dst, In (Copy2 MODEL_SRC dst, Ok VUnit) (trace r)) /\
  (forall tmp, In (Replace tmp META_PATH, Ok VUnit) (trace r) ->
     result r = Ok true) /\
  (child_keeps_contract o -> result r <> Ok true ->
   disk r !! META_PATH = fs !! META_PATH).
Proof.
  intros r. subst r. hide_post. open_cycle.
  repeat walk.
  all: subst P; simpl; rewrite ?app_nil_r; open_hyps.
  all: split;
    [split;
     [intros Hb; first [discriminate Hb | eexists; find_in]
     |intros (dst & Hin); first [reflexivity | exfalso; in_trace Hin]]|].
  all: split;
    [intros tmp Hin; first [reflexivity | exfalso; in_trace Hin]|].
  all: intros Hc Hres; try done; try (by apply Hc).
  all: match goal with
       | Hf : forall q, parent q <> MODELS_DIR -> ?d !! q = _
         |- ?d !! _ = _ =>
           rewrite Hf by discriminate; apply Hc; discriminate
       end.
Qed.

Lemma retrain_once_summary o t fs :
  cycle_summary o fs (run o t fs retrain_once).
Proof.
  split; [apply retrain_once_order|].
  split; [apply retrain_once_calls|].
  apply retrain_once_outcome.
Qed.

(** C5: when the fingerprint of the dataset equals the stored marker (the
    stripped content of the marker file) and the marker can be read (no
    existence check of the cycle raises, and reading the marker file does
    not fail), [retrain_once] returns [False], starts no process and makes
    no call that writes: the disk is left as it was. *)
Theorem unchanged_dataset_is_noop o t fs c m :
  resolve fs DATA_PATH = Some c ->
  resolve fs META_PATH = Some m ->
  strip m = md5_of c ->
  let r := run o t fs retrain_once in
  (forall p e, ~ In (PathExists p, Raise e) (trace r)) ->
  (forall e, ~ In (ReadText META_PATH, Raise e) (trace r)) ->
  result r = Ok false /\
  disk r = fs /\
  Forall (fun e => launches e.1 = false /\ writes e.1 = false) (trace r).
Proof.
  intros Hc Hm Heq r. subst r.
  assert (Hsame : String.eqb (md5_of c) (strip m) = true)
    by (rewrite Heq; apply String.eqb_refl).
  hide_post. open_cycle.
  repeat walk.
  all: subst P; simpl; intros Hex Hread.
  all: try (by exfalso; eapply Hex; simpl; eauto).
  all: try (by exfalso; eapply Hread; simpl; eauto).
  all: repeat split; repeat constructor.
Qed.

(** C7: when the training of a cycle fails (script missing, launch
    failure, timeout or non-zero exit), [retrain_once] returns [False] and
    makes no call that writes; the collaborator keeping to its contract,
    the marker file and the version store are as before the cycle. *)
Theorem failed_training_changes_nothing o t fs :
  child_keeps_contract o ->
  let r := run o t fs retrain_once in
  training_failed (trace r) ->
  result r = Ok false /\
  Forall (fun e => writes e.1 = false) (trace r) /\
  disk r !! META_PATH = fs !! META_PATH /\
  (forall p, parent p = MODELS_DIR -> disk r !! p = fs !! p) /\
  versions (disk r) = versions fs.
Proof.
  intros Hc r. subst r.
  assert (Hkeep : forall k p, parent p = MODELS_DIR ->
            child_effect (o k) fs !! p = fs !! p)
    by (intros k p Hp; apply Hc; by apply models_not_src).
  hide_post. open_cycle.
  repeat walk.
  all: subst P; simpl; intros Hf.
  all: try (solve [
    split; [reflexivity|]; split; [forall_trace|];
    split; [try reflexivity; by apply Hc|];
    split; [try done; intros; by apply Hkeep|];
    try reflexivity; apply versions_ext; intros; by apply Hkeep ]).
  all: exfalso;
    destruct Hf as [Hf|[(?&?&?&?&Hf)|(?&?&?&pr&Hf&Hne)]]; in_trace Hf.
  all: injection Hf as _ _ _ <-;
    match goal with
    | Hz : negb (returncode _ =? 0)%Z = false |- _ =>
        apply negb_false_iff, Z.eqb_eq in Hz; by rewrite Hz in Hne
    end.
Qed.

(** C8, amended: three calls of a cycle are made outside every [try]
    block: the existence check of the dataset, the existence check of the
    marker file and the reading of the marker file.  When none of these
    three fails, no failure inside a cycle leaves [retrain_once]: it
    returns [True] or [False], and [True] exactly when the version was
    saved, so that a failure before or during the save gives [False], and
    a failure of the metadata write, after the save, still gives [True]. *)
Theorem cycle_failures_are_contained o t fs :
  let r := run o t fs retrain_once in
  (forall e, ~ In (PathExists DATA_PATH, Raise e) (trace r)) ->
  (forall e, ~ In (PathExists META_PATH, Raise e) (trace r)) ->
  (forall e, ~ In (ReadText META_PATH, Raise e) (trace r)) ->
  exists b,
    result r = Ok b /\
    (b = true <-> exists dst, In (Copy2 MODEL_SRC dst, Ok VUnit) (trace r)).
Proof.
  intros r. subst r. hide_post. open_cycle.
  repeat walk.
  all: subst P; simpl; rewrite ?app_nil_r; open_hyps; intros Hdata Hmeta Hread.
  all: try (exfalso; discriminate).
  all: try (by exfalso; eapply Hdata; simpl; eauto).
  all: try (by exfalso; eapply Hmeta; simpl; eauto).
  all: try (by exfalso; eapply Hread; simpl; eauto).
  all: try discriminate.
  all: eexists; split; [reflexivity|].
  all: split; [intros Hb; first [discriminate Hb | eexists; find_in | idtac]|].
  all: try (intros (dst & Hin); exfalso; in_trace Hin; fail).
  all: try done.
Qed.

(** C6: in a cycle that returns [True] and whose metadata write put the
    new marker in place, the marker file holds the fingerprint of the
    dataset as it was when the cycle started, whatever the collaborator
    did to the dataset in between. *)
Theorem marker_is_cycle_fingerprint o t fs c tmp :
  resolve fs DATA_PATH = Some c ->
  let r := run o t fs retrain_once in
  result r = Ok true ->
  In (Replace tmp META_PATH, Ok VUnit) (trace r) ->
  disk r !! META_PATH = Some (File (md5_of c)).
Proof.
  intros Hc r. subst r. hide_post. open_cycle.
  repeat walk.
  all: subst P; simpl; rewrite ?app_nil_r; open_hyps; intros Hres Hin.
  all: try discriminate.
  all: try (exfalso; in_trace Hin; fail).
  all: try (subst; by lookups).
Qed.

(** C4, amended: in a cycle that saved the version [dst] and in which a
    step of the metadata write failed, [retrain_once] returns [True], the
    version file is there, the marker file is as before the cycle, and the
    store is the old one with [dst]: one version more when the name of
    [dst] was free before the cycle (the collaborator keeping to its
    contract). *)
Theorem metadata_failure_keeps_version o t fs dst s e :
  child_keeps_contract o ->
  let r := run o t fs retrain_once in
  In (Copy2 MODEL_SRC dst, Ok VUnit) (trace r) ->
  In (s, Raise e) (trace r) -> marker_step s = true ->
  result r = Ok true /\
  (exists b, disk r !! dst = Some (File b)) /\
  disk r !! META_PATH = fs !! META_PATH /\
  versions (disk r) = {[dst]} ∪ versions fs /\
  (fs !! dst = None -> size (versions (disk r)) = S (size (versions fs))).
Proof.
  intros Hc r. subst r.
  assert (Hkeep : forall k p, parent p = MODELS_DIR ->
            child_effect (o k) fs !! p = fs !! p)
    by (intros k p Hp; apply Hc; by apply models_not_src).
  hide_post. open_cycle.
  repeat walk.
  all: subst P; simpl; rewrite ?app_nil_r; open_hyps; intros Hsave Hfail Hs.
  all: try (exfalso; in_trace Hsave; fail).
  all: try (exfalso; quiet_in Hfail Hs; fail).
  all: in_trace Hsave.
  all: match goal with
       | H1 : forall d, In (Copy2 MODEL_SRC d, Ok VUnit) ?tr -> d = _ |- _ =>
           apply H1 in Hsave as ->
       end.
  all: split; [reflexivity|].
  all: match goal with
       | Hm : forall q, parent q <> _ -> ?d0 !! q = ?d !! q,
         Hd : ?d !! ?a = Some (File ?x),
         Ha : parent ?a = MODELS_DIR |- _ =>
           assert (Hdst : d0 !! a = Some (File x))
             by (rewrite Hm by (rewrite Ha; discriminate); exact Hd);
           assert (Hv : versions d0 = {[a]} ∪ versions fs)
       end.
  all: try (eapply versions_add; [eassumption|eassumption|exact Hdst|];
            intros q Hq Hne Hl;
            match goal with
            | Hm : forall q, parent q <> _ -> ?d0 !! q = ?d !! q,
              Hf : forall q, q <> _ -> q <> LATEST -> ?d !! q = _ |- _ =>
                rewrite Hm by (rewrite Hq; discriminate);
                rewrite Hf by assumption; by apply Hkeep
            end).
  all: split; [by eexists|].
  all: split;
    [|split; [exact Hv|intros Hnew; rewrite Hv; by apply versions_fresh]].
  all: match goal with
       | Hm : ?d0 !! META_PATH = ?d !! META_PATH,
         Hf : forall q, parent q <> MODELS_DIR -> ?d !! q = _ |- _ =>
           rewrite Hm, Hf by discriminate; apply Hc; discriminate
       end.
Qed.

(** With the sentinel in the marker file, a cycle that can read the
    dataset and the marker takes the training branch, whatever the
    dataset holds. *)
Lemma sentinel_forces_retrain o t fs c :
  fs !! META_PATH = Some (File "__FORCE__") ->
  resolve fs DATA_PATH = Some c ->
  let r := run o t fs retrain_once in
  (forall p e, ~ In (PathExists p, Raise e) (trace r)) ->
  (forall p e, ~ In (ReadBytes p, Raise e) (trace r)) ->
  (forall p e, ~ In (ReadText p, Raise e) (trace r)) ->
  retrains (trace r).
Proof.
  intros Hm Hc r. subst r.
  assert (Hne : String.eqb (md5_of c) (strip "__FORCE__") = false).
  { apply String.eqb_neq. intros Heq.
    pose proof (md5_hexdigest_form
                  (fold_left md5_update (chunks 8192 c) md5_new)) as Hf.
    fold (md5_of c) in Hf. rewrite Heq in Hf. vm_compute in Hf. discriminate. }
  assert (Hr : resolve fs META_PATH = Some "__FORCE__")
    by (by rewrite resolve_unfold, Hm).
  hide_post. open_cycle.
  repeat walk.
  all: subst P; simpl; rewrite ?app_nil_r; open_hyps; intros Hex Hb Ht.
  all: try (exfalso; congruence).
  all: try (exfalso; eapply Hex; simpl; find_in; fail).
  all: try (exfalso; eapply Hb; simpl; eauto; fail).
  all: try (exfalso; eapply Ht; simpl; eauto; fail).
  all: split; [find_in|eexists; find_in].
Qed.

End Cycle.

(** ** Two attempts at the same time *)

(** *** The lock discipline *)

Lemma disciplined_mono {A : Type} (m : prog A) :
  forall h (Q Q' : A -> bool -> Prop),
    (forall a h', Q a h' -> Q' a h') ->
    disciplined h m Q -> disciplined h m Q'.
Proof.
  induction m as [a|s k IH]; intros h Q Q' HQ; simpl; [by apply HQ|].
  intros [Hs Hk]. split; [done|]. intros c fs. by eapply IH.
Qed.

Lemma disciplined_pbind {A B : Type} (m : prog A) (f : A -> prog B) :
  forall h Q,
    disciplined h m (fun a h' => disciplined h' (f a) Q) ->
    disciplined h (pbind m f) Q.
Proof.
  induction m as [a|s k IH]; intros h Q; simpl; [done|].
  intros [Hs Hk]. split; [done|]. intros c fs. by apply IH.
Qed.

Lemma every_call_pbind {A B : Type} P (m : prog A) (f : A -> prog B) :
  every_call P m -> (forall a, every_call P (f a)) ->
  every_call P (pbind m f).
Proof.
  induction m as [a|s k IH]; simpl; [by intros _ Hf|].
  intros [Hs Hk] Hf. split; [done|]. intros c fs. by apply IH.
Qed.

Lemma every_call_call P s : P s = true -> every_call P (call s).
Proof. by split. Qed.

Lemma every_call_bind {A B : Type} P (m : M A) (f : A -> M B) :
  every_call P m -> (forall a, every_call P (f a)) ->
  every_call P (bind m f).
Proof.
  intros Hm Hf. apply every_call_pbind; [done|]. by intros [a|e].
Qed.

(** After a call, the program goes on with a value the call can
    return. *)
Lemma every_call_bind_call {B : Type} P s (f : ret s -> M B) :
  P s = true ->
  (forall c fs a, (handle c fs s).1 = Ok a -> every_call P (f a)) ->
  every_call P (bind (call s) f).
Proof.
  intros Hs Hf. split; [done|]. intros c fs. simpl.
  destruct (handle c fs s).1 eqn:E; [by eapply Hf|done].
Qed.

Lemma every_call_try_except {A : Type} P (m : M A) h :
  every_call P m -> (forall e k, h e = Some k -> every_call P k) ->
  every_call P (try_except m h).
Proof.
  intros Hm Hh. apply every_call_pbind; [done|]. intros [a|e]; [done|].
  destruct (h e) eqn:E; [by eapply Hh|done].
Qed.

Lemma every_call_try_finally {A : Type} P (m : M A) (f : M unit) :
  every_call P m -> every_call P f -> every_call P (try_finally m f).
Proof.
  intros Hm Hf. apply every_call_pbind; [done|]. intros r.
  apply every_call_pbind; [done|]. by intros [a|e].
Qed.

(** A program that leaves the token alone keeps the lock it holds. *)
Lemma every_call_disciplined {A : Type} (m : prog A) :
  every_call (fun s => negb (touches LOCKFILE s)) m ->
  disciplined true m (fun _ h => h = true).
Proof.
  induction m as [a|s k IH]; simpl; [done|].
  intros [Hs Hk]. split; [by rewrite Hs|]. intros c fs.
  replace (holding_after true s _) with true; [by apply IH|].
  destruct s; simpl in *; try done.
  all: by apply negb_true_iff in Hs as ->.
Qed.

(** The handlers of a [try]: the clause that matches, if any. *)
Ltac clauses :=
  simpl;
  repeat match goal with
         | |- (if ?b then _ else _) = Some _ -> _ => destruct b
         end;
  first [ intros [= <-] | discriminate ].

(** The temporary file is where [mkstemp] was asked to make it. *)
Ltac returned H :=
  lazymatch type of H with
  | (handle _ _ (Mkstemp _)).1 = Ok _ =>
      simpl in H;
      repeat match type of H with
             | context [match ?x with _ => _ end] => destruct x
             end;
      try discriminate H; injection H as <-
  | _ => clear H
  end.

Ltac calls :=
  repeat first
    [ exact I
    | apply every_call_call; reflexivity
    | apply every_call_bind_call;
      [reflexivity
      |let H := fresh "Hret" in intros ? ? ? H; returned H]
    | apply every_call_bind; [|intros ?]
    | apply every_call_try_except; [|intros ? ?; clauses]
    | apply every_call_try_finally
    | match goal with
      | |- every_call _ (if ?b then _ else _) => destruct b
      | |- every_call _ (match ?x with _ => _ end) => destruct x
      | |- every_call _ (when ?b _) => destruct b; simpl
      | |- every_call _ (log _ _) => apply every_call_call; reflexivity
      | |- _ = true /\ _ => split; [reflexivity|by intros]
      end ].

Transparent save_model_version write_meta_atomic.

Section Discipline.

Context {rt : Runtime}.

Lemma write_meta_atomic_leaves_token s :
  every_call (fun s => negb (touches LOCKFILE s)) (write_meta_atomic s).
Proof. unfold write_meta_atomic. calls. Qed.

Lemma retrain_once_leaves_token :
  every_call (fun s => negb (touches LOCKFILE s)) retrain_once.
Proof.
  open_cycle. unfold save_model_version. calls.
  all: apply write_meta_atomic_leaves_token.
Qed.

Opaque save_model_version write_meta_atomic retrain_once.

Lemma disciplined_bind {A B : Type} h (m : M A) (f : A -> M B) Q :
  disciplined h m
    (fun r h' =>
       match r with
       | Ok a => disciplined h' (f a) Q
       | Raise e => Q (Raise e) h'
       end) ->
  disciplined h (bind m f) Q.
Proof.
  intros H. apply disciplined_pbind.
  eapply disciplined_mono; [|exact H]. by intros [a|e] h'.
Qed.

(** A [try ... finally] around a program that keeps the lock, the
    [finally] clause made with the lock held. *)
Lemma disciplined_try_finally {A : Type} (m : M A) (f : M unit) :
  disciplined true m (fun _ h => h = true) ->
  disciplined true f (fun _ _ => True) ->
  disciplined true (try_finally m f) (fun _ _ => True).
Proof.
  intros Hm Hf. apply disciplined_pbind.
  eapply disciplined_mono; [|exact Hm]. intros r h' ->. simpl.
  apply disciplined_pbind.
  eapply disciplined_mono; [|exact Hf]. by intros [a|e] h' _.
Qed.

Ltac protocol :=
  repeat first
    [ progress simpl
    | match goal with
      | |- True => exact I
      | |- _ = true /\ _ => split; [reflexivity|]
      | |- forall _, _ => intro
      end
    | split_match ].

(** [acquire_lock] keeps to the discipline, and holds the lock when it
    returns [True]. *)
Lemma acquire_lock_disciplined h :
  disciplined h acquire_lock
    (fun r h' => exists b, r = Ok b /\ (b = true -> h' = true)).
Proof. unfold acquire_lock. destruct h; protocol; by eexists. Qed.

Lemma release_lock_disciplined :
  disciplined true release_lock (fun _ _ => True).
Proof. unfold release_lock. protocol. Qed.

Lemma cycle_disciplined :
  disciplined true (retrain_once;; pure tt) (fun _ h => h = true).
Proof.
  apply disciplined_bind. eapply disciplined_mono;
    [|apply every_call_disciplined, retrain_once_leaves_token].
  by intros [a|e] h' ->.
Qed.

Lemma forced_cycle_disciplined :
  disciplined true
    (log INFO "Forced run (--once): will retrain regardless of checksum.";;
     write_meta_atomic "__FORCE__";;
     retrain_once;;
     pure tt)
    (fun _ h => h = true).
Proof.
  split; [reflexivity|]. intros c fs.
  change (disciplined true
            (write_meta_atomic "__FORCE__";; retrain_once;; pure tt)
            (fun _ h => h = true)).
  apply disciplined_bind. eapply disciplined_mono;
    [|apply every_call_disciplined, write_meta_atomic_leaves_token].
  intros [a|e] h' ->; [|done]. apply cycle_disciplined.
Qed.

Lemma watch_turn_disciplined h i :
  disciplined h (watch_turn i) (fun _ _ => True).
Proof.
  unfold watch_turn. apply disciplined_bind.
  eapply disciplined_mono; [|apply acquire_lock_disciplined].
  intros r h' (b & -> & Hh). destruct b.
  - rewrite (Hh eq_refl). apply disciplined_bind.
    eapply disciplined_mono;
      [|apply disciplined_try_finally;
        [apply cycle_disciplined|apply release_lock_disciplined]].
    intros [a|e] h'' _; [|done]. destruct h''; protocol.
  - destruct h'; protocol.
Qed.

Lemma watch_turns_disciplined turns i :
  forall h, disciplined h (watch_turns turns i) (fun _ _ => True).
Proof.
  induction turns as [|n IH]; intros h; [done|].
  simpl watch_turns. apply disciplined_bind.
  eapply disciplined_mono; [|apply watch_turn_disciplined].
  intros [a|e] h' _; [apply IH|done].
Qed.

(** Every run of [main] keeps to the lock discipline, whatever its
    flags. *)
Lemma main_disciplined h turns a :
  disciplined h (main turns a) (fun _ _ => True).
Proof.
  unfold main. destruct (watch a).
  - unfold watch_loop. apply disciplined_bind.
    split; [by destruct h|]. intros c fs. simpl.
    apply disciplined_pbind.
    eapply disciplined_mono; [|apply watch_turns_disciplined].
    intros [u|e] h' _; [done|].
    destruct (is_KeyboardInterrupt e); [|done]. destruct h'; protocol.
  - apply disciplined_bind.
    eapply disciplined_mono; [|apply acquire_lock_disciplined].
    intros r h' (b & -> & Hh). destruct b.
    + rewrite (Hh eq_refl). simpl.
      apply disciplined_try_finally; [|apply release_lock_disciplined].
      destruct (once a); [apply forced_cycle_disciplined|apply cycle_disciplined].
    + destruct h'; protocol.
Qed.

End Discipline.

(** *** Mutual exclusion *)

(** A call that neither writes nor launches leaves the disk as it is. *)
Lemma quiet_call_keeps_disk c fs s :
  writes s = false -> launches s = false -> (handle c fs s).2 = fs.
Proof.
  destruct s; try discriminate; intros _ _; simpl;
    repeat match goal with
           | |- context [match ?x with _ => _ end] => destruct x
           end; reflexivity.
Qed.

(** A harmless event leaves the disk as it is. *)
Lemma harmless_keeps_disk c fs s :
  harmless (s, observe s (handle c fs s).1) = true -> (handle c fs s).2 = fs.
Proof.
  destruct s; simpl; repeat first [progress simpl | split_match];
    intros H; try reflexivity; try discriminate H.
Qed.

Lemma is_ok_observe s (r : res (ret s)) : is_ok (observe s r) = is_ok r.
Proof. by destruct r. Qed.

Lemma takes_touches s v :
  takes (s, v) = true -> touches LOCKFILE s = true /\ writes s = true.
Proof. destruct s, v; simpl; try done. Qed.

Lemma gives_up_touches s v :
  gives_up (s, v) = true -> touches LOCKFILE s = true /\ writes s = true.
Proof. destruct s, v; simpl; try done. Qed.

Lemma holding_after_untouched h s ok :
  touches LOCKFILE s = false \/ writes s = false ->
  holding_after h s ok = h.
Proof.
  destruct s; simpl; try done; intros [->|?]; done.
Qed.

Lemma harmless_quiet s v :
  writes s = false -> launches s = false -> harmless (s, v) = true.
Proof. destruct s, v; simpl; try done. Qed.

(** One call of one of two processes keeps the invariant of the lock. *)
Lemma lock_step c fs s p hs :
  child_keeps c ->
  allowed (state_of p hs) s = true -> lock_inv fs hs ->
  let r := (handle c fs s).1 in
  let e := (s, observe s r) in
  let hs' := with_state p (holding_after (state_of p hs) s (is_ok r)) hs in
  (takes e = true -> holder hs = None) /\
  (holder hs <> Some p -> takes e = true \/ harmless e = true) /\
  holder_after (holder hs) p e = holder hs' /\
  lock_inv (handle c fs s).2 hs'.
Proof.
  intros Hc Ha [Hx Htok]. cbv zeta.
  destruct (state_of p hs) eqn:Hh.
  - (* the process holds the lock *)
    assert (Hp : hs = with_state p true (false, false)).
    { destruct hs as [[] []], p; simpl in *; congruence. }
    subst hs. assert (Hl : is_Some (fs !! LOCKFILE)).
    { apply Htok. by destruct p. }
    clear Hx Htok Hh. simpl in Ha.
    destruct (touches LOCKFILE s) eqn:Ht; simpl in Ha.
    + destruct s; try discriminate Ha; simpl in Ha;
        apply path_eqb_eq in Ha as ->; simpl.
      * (* the pid written into the token *)
        destruct (fault c), (partial c); simpl; destruct p; unfold holder; simpl;
          repeat split; try discriminate; try (intros ?; congruence);
          intros _; rewrite ?lookup_insert_eq; eauto.
      * (* another exclusive creation: refused *)
        destruct Hl as [n Hl].
        destruct (fault c); simpl; rewrite ?Hl; simpl; destruct p;
          unfold holder; simpl;
          repeat split; eauto; try discriminate; try (intros ?; congruence).
      * (* the removal of the token *)
        destruct Hl as [n Hl].
        destruct (fault c); simpl; rewrite ?Hl; simpl; destruct p;
          unfold holder; simpl;
          repeat split; eauto; try discriminate; try (intros ?; congruence).
    + assert (Hsame : (handle c fs s).2 !! LOCKFILE = fs !! LOCKFILE)
        by (by apply handle_untouched).
      rewrite holding_after_untouched by (by left).
      unfold holder_after.
      destruct (takes _) eqn:E1;
        [apply takes_touches in E1 as [? _]; congruence|].
      destruct (gives_up _) eqn:E2;
        [apply gives_up_touches in E2 as [? _]; congruence|].
      destruct p; unfold holder, lock_inv; simpl.
      all: split; [done|]; split; [intros ?; congruence|].
      all: split; [done|]; split; [done|].
      all: intros _; by rewrite Hsame.
  - (* the process does not hold the lock *)
    simpl in Ha. apply orb_true_iff in Ha as [Ha|Ha].
    + apply andb_true_iff in Ha as [Hw Hr].
      apply negb_true_iff in Hw, Hr.
      rewrite (quiet_call_keeps_disk c fs s Hw Hr).
      rewrite holding_after_untouched by (by right).
      unfold holder_after.
      destruct (takes _) eqn:E1;
        [apply takes_touches in E1 as [_ ?]; congruence|].
      destruct (gives_up _) eqn:E2;
        [apply gives_up_touches in E2 as [_ ?]; congruence|].
      assert (Hs : with_state p false hs = hs)
        by (destruct hs as [[] []], p; simpl in *; congruence).
      rewrite Hs. split; [done|]. split; [|done].
      intros _. right. by apply harmless_quiet.
    + destruct s; try discriminate Ha. apply path_eqb_eq in Ha as ->.
      simpl. destruct (fault c); simpl.
      * assert (Hs : with_state p false hs = hs)
          by (destruct hs as [[] []], p; simpl in *; congruence).
        rewrite Hs. repeat split; auto; discriminate.
      * destruct (fs !! LOCKFILE) eqn:Hl; simpl.
        -- assert (Hs : with_state p false hs = hs)
             by (destruct hs as [[] []], p; simpl in *; congruence).
           rewrite Hs. repeat split; auto; discriminate.
        -- assert (Hnone : hs = (false, false)).
           { destruct hs as [[] []]; simpl in *; try done;
               destruct Htok as [? ?]; done. }
           subst hs. destruct p; simpl; repeat split; auto;
             intros _; rewrite lookup_insert_eq; eauto.
Qed.

Lemma state_of_with_state p h hs : state_of p (with_state p h hs) = h.
Proof. by destruct p. Qed.

Lemma with_state_twice p h h' hs :
  with_state p h' (with_state p h hs) = with_state p h' hs.
Proof. by destruct p. Qed.

Lemma with_state_same p hs : with_state p (state_of p hs) hs = hs.
Proof. by destruct p, hs. Qed.

(** One process goes on alone, the other keeping the state it has. *)
Lemma alone_exclusive o {A : Type} (m : prog A) :
  child_keeps_contract o ->
  forall t fs p hs (Q : A -> bool -> Prop),
    disciplined (state_of p hs) m Q -> lock_inv fs hs ->
    let r := run o t fs m in
    exclusive (holder hs) (List.map (pair p) (trace r)) /\
    exists h', Q (result r) h' /\ lock_inv (disk r) (with_state p h' hs).
Proof.
  intros Hc. induction m as [a|s k IH]; intros t fs p hs Q Hm Hinv; simpl.
  - split; [done|]. exists (state_of p hs). by rewrite with_state_same.
  - destruct Hm as [Ha Hk]. specialize (Hk (o t) fs).
    destruct (lock_step (o t) fs s p hs (Hc t) Ha Hinv)
      as (Htake & Hidle & Hnext & Hinv').
    destruct (handle (o t) fs s) as [r fs'] eqn:E. cbn [fst snd] in *. simpl.
    destruct (IH r (S t) fs' p
                (with_state p (holding_after (state_of p hs) s (is_ok r)) hs)
                Q) as (Hex & h' & HQ & Hend);
      [by rewrite state_of_with_state|exact Hinv'|].
    rewrite with_state_twice in Hend. rewrite <- Hnext in Hex.
    split; [|by exists h'].
    split; [exact Htake|]. split; [exact Hidle|exact Hex].
Qed.

(** Two processes that keep to the discipline exclude each other,
    however their calls are interleaved. *)
Lemma race_exclusive sched o {A B : Type} (m1 : prog A) :
  child_keeps_contract o ->
  forall (m2 : prog B) t fs hs (Q1 : A -> bool -> Prop)
         (Q2 : B -> bool -> Prop),
    disciplined hs.1 m1 Q1 -> disciplined hs.2 m2 Q2 -> lock_inv fs hs ->
    let r := race sched o m1 m2 t fs in
    exclusive (holder hs) (calls r) /\
    exists hs',
      Q1 (first_result r) hs'.1 /\ Q2 (second_result r) hs'.2 /\
      lock_inv (shared r) hs'.
Proof.
  intros Hc. induction m1 as [a|s1 k1 IH1].
  - intros m2 t fs hs Q1 Q2 H1 H2 Hinv.
    assert (Hr : race sched o (Ret a) m2 t fs =
                 second_alone a (run o t fs m2)) by (by destruct m2).
    rewrite Hr. simpl.
    destruct (alone_exclusive o m2 Hc t fs true hs Q2 H2 Hinv)
      as (Hex & h' & HQ & Hend).
    split; [exact Hex|]. exists (with_state true h' hs).
    by destruct hs.
  - induction m2 as [b|s2 k2 IH2]; intros t fs hs Q1 Q2 H1 H2 Hinv.
    + change (race sched o (Vis s1 k1) (Ret b) t fs)
        with (first_alone b (run o t fs (Vis s1 k1))).
      destruct (alone_exclusive o (Vis s1 k1) Hc t fs false hs Q1 H1 Hinv)
        as (Hex & h' & HQ & Hend).
      split; [exact Hex|]. exists (with_state false h' hs).
      by destruct hs.
    + change (race sched o (Vis s1 k1) (Vis s2 k2) t fs)
        with (if sched t then
                let '(r, fs') := handle (o t) fs s2 in
                tag true (s2, observe s2 r)
                  (race sched o (Vis s1 k1) (k2 r) (S t) fs')
              else
                let '(r, fs') := handle (o t) fs s1 in
                tag false (s1, observe s1 r)
                  (race sched o (k1 r) (Vis s2 k2) (S t) fs')).
      destruct (sched t).
      * destruct H2 as [Ha Hk]. specialize (Hk (o t) fs).
        destruct (lock_step (o t) fs s2 true hs (Hc t) Ha Hinv)
          as (Htake & Hidle & Hnext & Hinv').
        destruct (handle (o t) fs s2) as [r fs'] eqn:E. cbn [fst snd] in *.
        destruct (IH2 r (S t) fs'
                    (with_state true
                       (holding_after (state_of true hs) s2 (is_ok r)) hs)
                    Q1 Q2 H1 Hk Hinv')
          as (Hex & hs' & HQ1 & HQ2 & Hend).
        rewrite <- Hnext in Hex.
        split; [|by exists hs'].
        split; [exact Htake|]. split; [exact Hidle|exact Hex].
      * destruct H1 as [Ha Hk]. specialize (Hk (o t) fs).
        destruct (lock_step (o t) fs s1 false hs (Hc t) Ha Hinv)
          as (Htake & Hidle & Hnext & Hinv').
        destruct (handle (o t) fs s1) as [r fs'] eqn:E. cbn [fst snd] in *.
        destruct (IH1 r (Vis s2 k2) (S t) fs'
                    (with_state false
                       (holding_after (state_of false hs) s1 (is_ok r)) hs)
                    Q1 Q2 Hk H2 Hinv')
          as (Hex & hs' & HQ1 & HQ2 & Hend).
        rewrite <- Hnext in Hex.
        split; [|by exists hs'].
        split; [exact Htake|]. split; [exact Hidle|exact Hex].
Qed.

(** A process that never takes the lock makes harmless calls only. *)
Lemma exclusive_loser p (tr : list tagged) :
  forall h,
    exclusive h tr -> h <> Some p ->
    (forall e, In (p, e) tr -> takes e = false) ->
    forall e, In (p, e) tr -> harmless e = true.
Proof.
  induction tr as [|[q e0] tr IH]; intros h Hex Hh Hno e Hin; [done|].
  destruct Hex as (_ & Hidle & Hex).
  assert (Hnext : holder_after h q e0 <> Some p).
  { unfold holder_after. destruct (takes e0) eqn:Ht.
    - intros [= ->]. rewrite (Hno e0) in Ht; [done|by left].
    - by destruct (gives_up e0). }
  destruct Hin as [[= -> ->]|Hin].
  - destruct (Hidle Hh) as [Ht|Hq]; [|done].
    rewrite (Hno e) in Ht; [done|by left].
  - apply (IH _ Hex Hnext); [|done]. intros e' He'. apply Hno. by right.
Qed.

Section Exclusion.

Context {rt : Runtime}.

(** C2: two attempts that run at the same time, their calls interleaved
    in any order, exclude each other.  Of two calls of [acquire_lock] at
    most one returns [True].  Of two runs of [main] (single runs or watch
    loops), the lock is taken only when nobody holds it, and the process
    that does not hold it makes harmless calls only, which start no
    process and leave the disk as it is: its one call that writes, the
    creation of the token, is refused.  So an attempt that never gets
    the lock does nothing (the collaborator keeping to its contract). *)
Theorem second_attempt_is_locked_out sched o t fs turns1 a1 turns2 a2 :
  child_keeps_contract o ->
  (let r := race sched o acquire_lock acquire_lock t fs in
   exists b1 b2,
     first_result r = Ok b1 /\ second_result r = Ok b2 /\
     b1 && b2 = false) /\
  (let r := race sched o (main turns1 a1) (main turns2 a2) t fs in
   exclusive None (calls r) /\
   forall p,
     (forall e, In (p, e) (calls r) -> takes e = false) ->
     forall e, In (p, e) (calls r) -> harmless e = true) /\
  (forall c fs s,
     harmless (s, observe s (handle c fs s).1) = true ->
     (handle c fs s).2 = fs).
Proof.
  intros Hc. split; [|split].
  - intros r.
    destruct (race_exclusive sched o acquire_lock Hc acquire_lock t fs
                (false, false) _ _
                (acquire_lock_disciplined false)
                (acquire_lock_disciplined false))
      as (_ & [h1 h2] & (b1 & H1 & Hb1) & (b2 & H2 & Hb2) & [Hx _]); [done|].
    fold r in H1, H2. exists b1, b2. split; [done|]. split; [done|].
    simpl in *. destruct b1, b2; try done.
    by rewrite (Hb1 eq_refl), (Hb2 eq_refl) in Hx.
  - intros r.
    destruct (race_exclusive sched o (main turns1 a1) Hc (main turns2 a2) t fs
                (false, false) _ _
                (main_disciplined false turns1 a1)
                (main_disciplined false turns2 a2))
      as (Hex & _); [done|].
    fold r in Hex. split; [exact Hex|].
    intros p. by apply (exclusive_loser p (calls r) None).
  - apply harmless_keeps_disk.
Qed.

End Exclusion.

(** ** The program around the cycle *)

(** From here on a cycle is taken as a whole, through its summary. *)
Opaque retrain_once.

Ltac call_cycle :=
  match goal with
  | |- context [run ?o ?t ?fs (@retrain_once ?rt)] =>
      let H := fresh "Hcycle" in
      pose proof (@retrain_once_summary rt o t fs) as H;
      destruct (run o t fs (@retrain_once rt)) as [? ? ? ?];
      unfold cycle_summary in H; simpl in H
  end.

Ltac known_call ::= first [ when_log | call_summary | call_cycle ].

(** *** The cycles of a trace *)

Lemma cycles_split pre s v tr :
  Forall (fun e => turn_end e.1 = false) pre -> turn_end s = true ->
  cycles (pre ++ (s, v) :: tr) = pre :: cycles tr.
Proof.
  intros Hpre Hs. induction Hpre as [|e pre He _ IH]; simpl.
  - by rewrite Hs.
  - by rewrite He, IH.
Qed.

Lemma cycles_one tr :
  Forall (fun e => turn_end e.1 = false) tr -> cycles tr = [tr].
Proof.
  intros Htr. induction Htr as [|e tr He _ IH]; simpl; [done|].
  by rewrite He, IH.
Qed.

Lemma cycles_safe_cons e tr :
  quiet e ->
  Forall save_precedes_marker (cycles tr) ->
  Forall save_precedes_marker (cycles (e :: tr)).
Proof.
  intros [Hm He] Htr. simpl. rewrite He.
  destruct (cycles tr) as [|c cs].
  - constructor; [|done]. apply safe_precedes, safe_quiet. by constructor.
  - apply Forall_cons in Htr as [Hc Hcs]. constructor; [|done].
    apply safe_precedes, safe_cons; [by left|].
    by apply safe_mono, precedes_safe.
Qed.

Arguments cycles : simpl never.

(** A trace that ends with the event [s]. *)
Lemma ends_cons (e s : event) tr pre :
  tr = pre ++ [s] -> e :: tr = (e :: pre) ++ [s].
Proof. by intros ->. Qed.

Lemma ends_nil (s : event) : [s] = [] ++ [s].
Proof. reflexivity. Qed.

Ltac peel :=
  first [ apply ends_nil | reflexivity | apply ends_cons; peel ].

Ltac turn_safe :=
  repeat first
    [ apply safe_true
    | apply safe_nil
    | by apply safe_mono
    | apply safe_cons; [by left|simpl]
    | apply safe_app; [by apply safe_mono|simpl] ].

Ltac no_turn_end :=
  forall_trace;
  try match goal with
      | H : Forall (fun e => touches LOCKFILE e.1 = false /\ _) ?tr
        |- Forall _ ?tr =>
          eapply Forall_impl; [exact H|]; by intros ? [_ ?]
      end.

Section Program.

Context {rt : Runtime}.

(** The lock token is there when [acquire_lock] returns [True]. *)
Lemma acquired_lock_exists o t fs :
  let r := run o t fs acquire_lock in
  result r = Ok true -> exists nd, disk r !! LOCKFILE = Some nd.
Proof.
  intros r. subst r. hide_post. unfold acquire_lock.
  repeat walk.
  all: subst P; simpl; intros Hr; try discriminate.
  all: lookups; eauto.
Qed.

(** An attempt made as a whole while another holds the lock and is at
    any point of its cycle is locked out: its [acquire_lock] returns
    [False], and a single run of [main] as well as a turn of the watch
    loop starts no process and leaves the disk as it is. *)
Lemma locked_out_during_cycle o t fs n o' t' :
  child_keeps_contract o ->
  let first := run o t fs acquire_lock in
  result first = Ok true ->
  let during := killed_after n o (tick first) (disk first) retrain_once in
  result (run o' t' during acquire_lock) = Ok false /\
  (forall turns a, watch a = false ->
     let m := run o' t' during (main turns a) in
     disk m = during /\ Forall idle (trace m)) /\
  (forall i,
     let w := run o' t' during (watch_turn i) in
     disk w = during /\ Forall idle (trace w)).
Proof.
  intros Hc first Hfirst during.
  assert (Hlock : exists nd, during !! LOCKFILE = Some nd).
  { subst during. rewrite killed_after_untouched; [|exact Hc|].
    - by apply acquired_lock_exists.
    - eapply Forall_impl; [apply retrain_once_calls|]. by intros ? [? _]. }
  clearbody during. clear first Hfirst. destruct Hlock as [nd Hlock].
  split; [|split].
  - unfold acquire_lock. repeat walk. all: reflexivity.
  - intros turns [w i on] Hw m. simpl in Hw. subst w m.
    hide_post. unfold main, acquire_lock.
    repeat walk.
    all: subst P; simpl; (split; [reflexivity|]).
    all: repeat constructor; simpl; done.
  - intros i w. subst w. hide_post. unfold watch_turn, acquire_lock.
    repeat walk.
    all: subst P; simpl; (split; [reflexivity|]).
    all: repeat constructor; simpl; done.
Qed.
(** A forced run that put the sentinel in place and saved no version
    leaves the sentinel in the marker file. *)
Lemma forced_run_marker o t fs turns i tmp :
  child_keeps_contract o ->
  let r := run o t fs (main turns (forced i)) in
  In (Replace tmp META_PATH, Ok VUnit) (trace r) ->
  (forall dst, ~ In (Copy2 MODEL_SRC dst, Ok VUnit) (trace r)) ->
  disk r !! META_PATH = Some (File "__FORCE__").
Proof.
  intros Hc r. subst r. hide_post.
  unfold main, forced, acquire_lock, release_lock. simpl.
  repeat walk.
  all: subst P; simpl; rewrite ?app_nil_r; open_hyps; intros Hrep Hsave.
  all: try (exfalso; in_trace Hrep; fail).
  all: match goal with
       | Hk : child_keeps_contract _ -> ?res <> Ok true ->
              ?d0 !! META_PATH = ?d !! META_PATH,
         Hiff : ?res = Ok true <-> _ |- _ =>
           assert (Hno : res <> Ok true)
             by (intros Ht; apply Hiff in Ht as [dst Hd];
                 apply (Hsave dst); find_in);
           specialize (Hk Hc Hno)
       end.
  all: lookups; rewrite Hcycle; subst; by lookups.
Qed.

(** C10: in a forced run of [main] that put the sentinel in place and
    whose cycle saved no version (the collaborator keeping to its
    contract), the marker file holds ["__FORCE__"] at the end; and a later
    cycle on that disk, whatever the dataset holds, takes the training
    branch when it can read the dataset and the marker (no existence
    check raises and no reading fails). *)
Theorem forced_failure_leaves_sentinel o t fs turns i tmp :
  child_keeps_contract o ->
  let r := run o t fs (main turns (forced i)) in
  In (Replace tmp META_PATH, Ok VUnit) (trace r) ->
  (forall dst, ~ In (Copy2 MODEL_SRC dst, Ok VUnit) (trace r)) ->
  disk r !! META_PATH = Some (File "__FORCE__") /\
  forall o' t' c,
    resolve (disk r) DATA_PATH = Some c ->
    let r' := run o' t' (disk r) retrain_once in
    (forall p e, ~ In (PathExists p, Raise e) (trace r')) ->
    (forall p e, ~ In (ReadBytes p, Raise e) (trace r')) ->
    (forall p e, ~ In (ReadText p, Raise e) (trace r')) ->
    retrains (trace r').
Proof.
  intros Hc r Hrep Hsave.
  assert (Hm : disk r !! META_PATH = Some (File "__FORCE__"))
    by (by apply (forced_run_marker o t fs turns i tmp)).
  split; [exact Hm|]. intros o' t' c Hdata r'.
  exact (sentinel_forces_retrain o' t' (disk r) c Hm Hdata).
Qed.

(** A turn of the watch loop: a cycle in which the save precedes the
    marker, then the [sleep], unless the cycle raised. *)
Lemma watch_turn_trace o t fs i :
  let r := run o t fs (watch_turn i) in
  exists pre,
    (trace r = pre /\ is_ok (result r) = false \/
     exists v, trace r = pre ++ [(Sleep i, v)]) /\
    marker_safe false pre /\
    Forall (fun e => turn_end e.1 = false) pre.
Proof.
  intros r. subst r. hide_post. unfold watch_turn, acquire_lock, release_lock.
  repeat walk.
  all: subst P; simpl; rewrite ?app_nil_r; open_hyps.
  all: eexists; split;
    [try first [ right; eexists; peel | left; split; reflexivity ]|].

  all: split; [turn_safe|no_turn_end].
Qed.

(** Any number of turns, followed by events that are no marker steps. *)
Lemma watch_turns_safe turns i : forall o t fs suffix,
  Forall quiet suffix ->
  Forall save_precedes_marker
    (cycles (trace (run o t fs (watch_turns turns i)) ++ suffix)).
Proof.
  assert (Hsuf : forall suffix, Forall quiet suffix ->
            marker_safe false suffix /\
            Forall (fun e => turn_end e.1 = false) suffix).
  { intros suffix Hq. split.
    - apply safe_quiet. eapply Forall_impl; [exact Hq|]. by intros ? [? _].
    - eapply Forall_impl; [exact Hq|]. by intros ? [_ ?]. }
  induction turns as [|n IH]; intros o t fs suffix Hq.
  - simpl. destruct (Hsuf suffix Hq) as [Hs He].
    rewrite cycles_one by exact He. constructor; [|done].
    by apply safe_precedes.
  - simpl watch_turns. rewrite run_bind.
    pose proof (watch_turn_trace o t fs i) as Hw.
    destruct (run o t fs (watch_turn i)) as [res d tk tr].
    simpl in Hw. unfold then_, prepend. simpl.
    destruct Hw as (pre & [[-> Hres]|[v ->]] & Hsafe & Hpre).
    + destruct res; [done|]. simpl. rewrite app_nil_r.
      destruct (Hsuf suffix Hq) as [Hs He].
      rewrite cycles_one by (by apply Forall_app_2).
      constructor; [|done]. apply safe_precedes, safe_app; [done|].
      by apply safe_mono.
    + rewrite <- !app_assoc. simpl.
      rewrite cycles_split by done.
      constructor; [by apply safe_precedes|].
      destruct res; simpl.
      * by apply IH.
      * destruct (Hsuf suffix Hq) as [Hs He].
        rewrite cycles_one by exact He. constructor; [|done].
        by apply safe_precedes.
Qed.

(** C1, amended: within a cycle, every step of the metadata write comes
    after the successful save of the version; and so in every cycle of a
    run of [main] that is not forced (a single run without [--once], or
    the watch loop, for any number of turns). *)
Theorem save_precedes_marker_unless_forced o t fs turns a :
  (once a = true -> watch a = true) ->
  save_precedes_marker (trace (run o t fs retrain_once)) /\
  Forall save_precedes_marker (cycles (trace (run o t fs (main turns a)))).
Proof.
  intros Ha. split; [apply safe_precedes, retrain_once_order|].
  destruct a as [w i on]. simpl in Ha. unfold main. simpl.
  destruct w.
  - unfold watch_loop. rewrite run_bind. unfold then_. simpl.
    rewrite run_try_except. unfold then_. simpl.
    apply (cycles_safe_cons (Log INFO _, Ok VUnit)); [done|].
    apply watch_turns_safe.
    destruct (result (run _ _ _ (watch_turns turns i))) as [[]|[]]; simpl.
    all: by repeat constructor.
  - destruct on; [by specialize (Ha eq_refl)|].
    hide_post. unfold acquire_lock, release_lock.
    repeat walk.
    all: subst P; simpl; rewrite ?app_nil_r; open_hyps.
    all: rewrite cycles_one by no_turn_end.
    all: constructor; [|done]; apply safe_precedes; turn_safe.
Qed.

End Program.

(** ** The theorems at work on concrete runs *)

Lemma calm_keeps : child_keeps_contract (always calm).
Proof.
  intros k fs p Hp. unfold always, calm. simpl.
  by rewrite lookup_insert_ne.
Qed.

Lemma fault_at_keeps n e k o :
  child_keeps_contract o -> child_keeps_contract (fault_at n e k o).
Proof.
  intros Ho t fs p Hp. unfold fault_at.
  destruct (t =? n)%nat; simpl; by apply Ho.
Qed.

(** [x] is in the computed list. *)
Ltac present := vm_compute; repeat (first [left; reflexivity | right]).

(** [H] says that something is in a computed list it is not in. *)
Ltac absent H :=
  vm_compute in H; repeat (destruct H as [H|H]; [discriminate H|]); exact H.

(** A fingerprint written on an empty disk and read back. *)
Lemma marker_roundtrip_witness :
  let s := "d41d8cd98f00b204e9800998ecf8427e" in
  let w := run (always calm) 0 ∅ (write_meta_atomic s) in
  is_fingerprint s = true /\
  result w = Ok tt /\
  result (run (always calm) 7 (disk w) read_meta) = Ok (Some s).
Proof.
  intros s w.
  split; [reflexivity|]. split; [reflexivity|].
  apply (marker_roundtrip (always calm) 0%nat ∅ s (always calm) 7%nat).
  - reflexivity.
  - reflexivity.
  - intros e H. absent H.
  - intros e H. absent H.
Defined.


(** A cycle on a disk whose marker is the fingerprint of the dataset. *)
Lemma unchanged_dataset_is_noop_witness :
  let r := run (always calm) 0 fs_same (@retrain_once toy_runtime) in
  result r = Ok false /\
  disk r = fs_same /\
  Forall (fun e => launches e.1 = false /\ writes e.1 = false) (trace r).
Proof.
  apply (unchanged_dataset_is_noop (rt := toy_runtime) (always calm) 0%nat
           fs_same "a,b" ("000000000000000000000000000000f0" +:+ newline)).
  - reflexivity.
  - reflexivity.
  - vm_compute. reflexivity.
  - intros p e H. absent H.
  - intros e H. absent H.
Defined.

(** A cycle without a training script. *)
Lemma failed_training_changes_nothing_witness :
  let r := run (always calm) 0 fs_bare (@retrain_once toy_runtime) in
  training_failed (trace r) /\
  result r = Ok false /\
  Forall (fun e => writes e.1 = false) (trace r) /\
  disk r !! META_PATH = fs_bare !! META_PATH /\
  (forall p, parent p = MODELS_DIR -> disk r !! p = fs_bare !! p) /\
  versions (disk r) = versions fs_bare.
Proof.
  intros r.
  assert (Hfail : training_failed (trace r)) by (left; present).
  split; [exact Hfail|].
  exact (failed_training_changes_nothing (rt := toy_runtime)
           (always calm) 0%nat fs_bare calm_keeps Hfail).
Defined.

(** A first cycle in which nothing fails. *)
Lemma marker_is_cycle_fingerprint_witness :
  let r := run (always calm) 0 fs_new (@retrain_once toy_runtime) in
  result r = Ok true /\
  disk r !! META_PATH = Some (File (@md5_of toy_runtime "a,b")).
Proof.
  intros r. split; [reflexivity|].
  apply (marker_is_cycle_fingerprint (rt := toy_runtime) (always calm) 0%nat
           fs_new "a,b" tmp0).
  - reflexivity.
  - reflexivity.
  - present.
Defined.

(** A first cycle whose metadata write runs out of disk space. *)
Lemma metadata_failure_keeps_version_witness :
  let r := run meta_fails 0 fs_new (@retrain_once toy_runtime) in
  result r = Ok true /\
  (exists b, disk r !! version0 = Some (File b)) /\
  disk r !! META_PATH = fs_new !! META_PATH /\
  versions (disk r) = {[version0]} ∪ versions fs_new /\
  (fs_new !! version0 = None ->
   size (versions (disk r)) = S (size (versions fs_new))).
Proof.
  apply (metadata_failure_keeps_version (rt := toy_runtime) meta_fails 0%nat
           fs_new version0
           (WriteText tmp0 (@md5_of toy_runtime "a,b")) (OSError ENOSPC)).
  - apply fault_at_keeps, calm_keeps.
  - present.
  - present.
  - reflexivity.
Defined.

(** A cycle whose training cannot be launched returns [False]. *)
Lemma cycle_failures_are_contained_witness :
  let r := run (always calm) 0 fs_bare (@retrain_once toy_runtime) in
  exists b,
    result r = Ok b /\
    (b = true <-> exists dst, In (Copy2 MODEL_SRC dst, Ok VUnit) (trace r)).
Proof.
  apply (cycle_failures_are_contained (rt := toy_runtime) (always calm) 0%nat
           fs_bare).
  - intros e H. absent H.
  - intros e H. absent H.
  - intros e H. absent H.
Defined.


(** C4, as stated, fails: the version of this second is in the store
    already, the save overwrites it, and the store has no version more
    than before the cycle. *)
Lemma same_second_adds_no_version :
  let r := run meta_fails 0 fs_taken (@retrain_once toy_runtime) in
  result r = Ok true /\
  In (Copy2 MODEL_SRC version0, Ok VUnit) (trace r) /\
  In (WriteText tmp0 (@md5_of toy_runtime "a,b"), Raise (OSError ENOSPC))
    (trace r) /\
  disk r !! version0 = Some (File "weights") /\
  size (versions (disk r)) = size (versions fs_taken).
Proof.
  intros r. split; [reflexivity|]. split; [present|]. split; [present|].
  split; reflexivity.
Qed.

(** C8, as stated, fails: the metadata write fails, and the cycle returns
    [True]. *)
Lemma metadata_failure_returns_true :
  let r := run meta_fails 0 fs_new (@retrain_once toy_runtime) in
  In (WriteText tmp0 (@md5_of toy_runtime "a,b"), Raise (OSError ENOSPC))
    (trace r) /\
  result r = Ok true.
Proof. intros r. split; [present|reflexivity]. Qed.

(** Two single runs started together on a new dataset, their calls
    taken in turn: the first gets the lock, the second is refused and
    makes harmless calls only. *)
Lemma second_attempt_is_locked_out_witness :
  let a := race in_turn (always calm) acquire_lock acquire_lock 0 fs_new in
  let r := race in_turn (always calm) (@main toy_runtime 0 single)
             (@main toy_runtime 0 single) 0 fs_new in
  first_result a = Ok true /\ second_result a = Ok false /\
  exclusive None (calls r) /\
  (forall e, In (true, e) (calls r) -> harmless e = true).
Proof.
  intros a r. split; [reflexivity|]. split; [reflexivity|].
  destruct (second_attempt_is_locked_out (rt := toy_runtime) in_turn
              (always calm) 0%nat fs_new 0%nat single 0%nat single calm_keeps)
    as (_ & [Hex Hloser] & _).
  split; [exact Hex|]. apply Hloser. intros e H. vm_compute in H.
  repeat (destruct H as [H|H];
          [first [discriminate H | by injection H as <-]|]).
  destruct H.
Defined.

(** A forced run on an up-to-date disk, the launch of the training
    failing: the recorded fingerprint is replaced by the sentinel. *)
Lemma forced_failure_leaves_sentinel_witness :
  let r := run launch_fails 0 fs_same
             (@main toy_runtime 0 (forced 300)) in
  fs_same !! META_PATH =
    Some (File ("000000000000000000000000000000f0" +:+ newline)) /\
  disk r !! META_PATH = Some (File "__FORCE__") /\
  forall o' t' c,
    resolve (disk r) DATA_PATH = Some c ->
    let r' := run o' t' (disk r) (@retrain_once toy_runtime) in
    (forall p e, ~ In (PathExists p, Raise e) (trace r')) ->
    (forall p e, ~ In (ReadBytes p, Raise e) (trace r')) ->
    (forall p e, ~ In (ReadText p, Raise e) (trace r')) ->
    retrains (trace r').
Proof.
  intros r. split; [reflexivity|].
  apply (forced_failure_leaves_sentinel (rt := toy_runtime)
           launch_fails 0%nat fs_same 0%nat 300%Z tmp0).
  - apply fault_at_keeps, calm_keeps.
  - present.
  - intros dst H. absent H.
Defined.

(** Two turns of the watch loop on a new dataset. *)
Lemma save_precedes_marker_unless_forced_witness :
  (once watching = true -> watch watching = true) /\
  save_precedes_marker
    (trace (run (always calm) 0 fs_new (@retrain_once toy_runtime))) /\
  Forall save_precedes_marker
    (cycles (trace (run (always calm) 0 fs_new
                      (@main toy_runtime 2 watching)))).
Proof.
  split; [reflexivity|].
  apply (save_precedes_marker_unless_forced (rt := toy_runtime)
           (always calm) 0%nat fs_new 2%nat watching).
  reflexivity.
Defined.

(** C1, as stated, fails: a forced run writes the sentinel into the
    marker file first, before any version is saved. *)
Lemma forced_run_writes_marker_first :
  let r := run (always calm) 0 fs_new (@main toy_runtime 0 (forced 300)) in
  ~ Forall save_precedes_marker (cycles (trace r)).
Proof.
  intros r H.
  assert (Hone : cycles (trace r) = [trace r]) by (vm_compute; reflexivity).
  rewrite Hone in H. apply Forall_inv in H.
  destruct (H (firstn 4 (trace r)) (Mkdir (parent META_PATH), Ok VUnit)
              (skipn 5 (trace r)) eq_refl eq_refl) as (s & Hin & Hs).
  vm_compute in Hin.
  repeat (destruct Hin as [<-|Hin]; [discriminate Hs|]). exact Hin.
Qed.

(** * Further properties of the script *)

(** ** Chunks, white space and time stamps *)

Lemma take_drop_str n s : take_str n s +:+ drop_str n s = s.
Proof.
  revert s. induction n as [|n IH]; intros [|a s]; simpl; try done.
  change (String a (take_str n s +:+ drop_str n s) = String a s).
  by rewrite IH.
Qed.

Lemma take_str_length n s : (String.length (take_str n s) <= n)%nat.
Proof.
  revert s. induction n as [|n IH]; intros [|a s]; simpl; try lia.
  specialize (IH s). lia.
Qed.

Lemma drop_str_length n s :
  (String.length (drop_str n s) = String.length s - n)%nat.
Proof.
  revert s. induction n as [|n IH]; intros [|a s]; simpl; try lia.
  apply IH.
Qed.

Lemma chunks_upto_cover fuel n s :
  (0 < n)%nat -> (String.length s <= fuel)%nat ->
  join_chunks (chunks_upto fuel n s) = s /\
  Forall (fun c => nonempty c = true /\ (String.length c <= n)%nat)
    (chunks_upto fuel n s).
Proof.
  intros Hn. revert s. induction fuel as [|fuel IH]; intros s Hs.
  - destruct s; simpl in *; [by split|lia].
  - simpl. destruct s as [|a s]; simpl; [by split|].
    destruct n as [|n]; [lia|]. simpl.
    destruct (IH (drop_str n s)) as [Hj Hf].
    { rewrite drop_str_length. simpl in Hs. lia. }
    split.
    + unfold join_chunks in *. simpl. rewrite Hj.
      change (String a (take_str n s +:+ drop_str n s) = String a s).
      by rewrite take_drop_str.
    + constructor; [|exact Hf]. split; [done|]. simpl.
      pose proof (take_str_length n s). lia.
Qed.

Lemma lstrip_spaces l s :
  string_forallb isspace l = true -> lstrip (l +:+ s) = lstrip s.
Proof.
  induction l as [|a l IH]; [done|].
  intros [Ha Hl]%andb_true_iff.
  change (lstrip (String a (l +:+ s)) = lstrip s). simpl. rewrite Ha. auto.
Qed.

Lemma rstrip_spaces r :
  string_forallb isspace r = true -> rstrip r = EmptyString.
Proof.
  induction r as [|a r IH]; [done|].
  intros [Ha Hr]%andb_true_iff. simpl. by rewrite IH, Ha.
Qed.

Lemma rstrip_hex_spaces s r :
  string_forallb is_hex s = true -> string_forallb isspace r = true ->
  rstrip (s +:+ r) = s.
Proof.
  intros Hs Hr. induction s as [|a s IH].
  - by apply rstrip_spaces.
  - apply andb_true_iff in Hs as [Ha Hs].
    change (rstrip (String a (s +:+ r)) = String a s). simpl.
    rewrite (IH Hs). destruct s; [|done]. by rewrite (hex_not_space a Ha).
Qed.

Lemma strip_padded l s r :
  is_fingerprint s = true ->
  string_forallb isspace l = true -> string_forallb isspace r = true ->
  strip (l +:+ s +:+ r) = s.
Proof.
  unfold is_fingerprint, strip. intros [Hs Hlen]%andb_true_iff Hl Hr.
  rewrite lstrip_spaces by done.
  assert (Hfix : lstrip (s +:+ r) = s +:+ r).
  { destruct s as [|a s]; [done|]. simpl in Hs.
    apply andb_true_iff in Hs as [Ha _].
    change (lstrip (String a (s +:+ r)) = String a (s +:+ r)). simpl.
    by rewrite (hex_not_space a Ha). }
  rewrite Hfix. by apply rstrip_hex_spaces.
Qed.

Lemma append_cons a (s1 s2 : string) :
  String a s1 +:+ s2 = String a (s1 +:+ s2).
Proof. reflexivity. Qed.

Lemma append_assoc (a b c : string) : (a +:+ b) +:+ c = a +:+ (b +:+ c).
Proof.
  induction a as [|x a IH]; [done|]. by rewrite !append_cons, IH.
Qed.

Lemma append_length (a b : string) :
  String.length (a +:+ b) = (String.length a + String.length b)%nat.
Proof.
  induction a as [|x a IH]; [done|]. rewrite append_cons. simpl. by rewrite IH.
Qed.

Lemma append_inj (a b c d : string) :
  String.length a = String.length b -> a +:+ c = b +:+ d -> a = b /\ c = d.
Proof.
  revert b. induction a as [|x a IH]; intros [|y b] Hl H; try done.
  rewrite !append_cons in H. injection H as -> H. simpl in Hl.
  destruct (IH b) as [-> ->]; [lia|done|done].
Qed.

Lemma pad_upto_acc w : forall n acc,
  pad_upto w n acc = pad_upto w n EmptyString +:+ acc.
Proof.
  induction w as [|w IH]; intros n acc; [done|]. simpl.
  rewrite (IH _ (String _ acc)), (IH _ (String _ EmptyString)).
  by rewrite append_assoc.
Qed.

Lemma pad_length w n : String.length (pad w n) = w.
Proof.
  unfold pad. revert n. induction w as [|w IH]; intros n; [done|]. simpl.
  rewrite pad_upto_acc, append_length, IH. simpl. lia.
Qed.

Lemma digit_inj n m : digit n = digit m -> (n mod 10 = m mod 10)%nat.
Proof.
  unfold digit. intros H.
  assert (Hn : (n mod 10 < 10)%nat) by (apply Nat.mod_upper_bound; lia).
  assert (Hm : (m mod 10 < 10)%nat) by (apply Nat.mod_upper_bound; lia).
  apply (f_equal nat_of_ascii) in H.
  rewrite !nat_ascii_embedding in H by lia. lia.
Qed.

Lemma pad_inj w : forall n m,
  (n < 10 ^ w)%nat -> (m < 10 ^ w)%nat -> pad w n = pad w m -> n = m.
Proof.
  unfold pad. induction w as [|w IH]; intros n m Hn Hm H.
  - simpl in *. lia.
  - simpl in H. rewrite (pad_upto_acc w (n / 10)), (pad_upto_acc w (m / 10)) in H.
    apply append_inj in H as [H1 H2];
      [|by rewrite !(pad_length w : forall n, String.length (pad_upto w n _) = w)].
    injection H2 as H2. apply digit_inj in H2.
    rewrite Nat.pow_succ_r' in Hn, Hm.
    assert (n / 10 = m / 10)%nat.
    { apply IH; [| |done]; apply Nat.Div0.div_lt_upper_bound; lia. }
    rewrite (Nat.div_mod_eq n 10), (Nat.div_mod_eq m 10). lia.
Qed.

Lemma strftime_stamp_length d : String.length (strftime_stamp d) = 16%nat.
Proof.
  unfold strftime_stamp. by rewrite !append_length, !pad_length.
Qed.

Lemma strftime_stamp_inj d1 d2 :
  valid_time d1 -> valid_time d2 ->
  strftime_stamp d1 = strftime_stamp d2 -> d1 = d2.
Proof.
  destruct d1 as [y1 mo1 da1 h1 mi1 s1], d2 as [y2 mo2 da2 h2 mi2 s2].
  unfold valid_time, strftime_stamp. simpl.
  intros (?&?&?&?&?&?) (?&?&?&?&?&?) Hst.
  repeat match type of Hst with
         | pad ?w _ +:+ _ = pad ?w _ +:+ _ =>
             let Hp := fresh "Hp" in
             apply append_inj in Hst as [Hp Hst]; [|by rewrite !pad_length];
             apply pad_inj in Hp; [|simpl; lia|simpl; lia]
         | String _ _ +:+ _ = String _ _ +:+ _ =>
             apply append_inj in Hst as [_ Hst]; [|reflexivity]
         end.
  by subst.
Qed.

(** ** The functions one by one *)

Transparent save_model_version write_meta_atomic retrain_once.

Section Functions.

Context {rt : Runtime}.

(** X1: [file_md5] of a readable file returns the digest of the hash fed
    with the chunks of the file, in order; put together the chunks are
    the whole content, none is empty and none is longer than 8192 bytes;
    the disk is left as it was. *)
Theorem file_md5_reads_whole_file o t fs p c :
  resolve fs p = Some c -> fault (o t) = None ->
  let r := run o t fs (file_md5 p) in
  let cs := chunks 8192 c in
  result r = Ok (md5_hexdigest (fold_left md5_update cs md5_new)) /\
  join_chunks cs = c /\
  Forall (fun k => nonempty k = true /\ (String.length k <= 8192)%nat) cs /\
  disk r = fs.
Proof.
  intros Hc Hf r cs. subst r cs.
  destruct (chunks_upto_cover (String.length c) 8192 c) as [Hj Hall];
    [by apply Nat.ltb_lt|lia|].
  unfold file_md5. simpl. rewrite Hf, Hc. simpl. done.
Qed.

(** X2: [read_meta] returns the fingerprint held by the marker file
    whatever white space surrounds it there (when neither its existence
    check nor the reading of the file fails). *)
Theorem read_meta_ignores_whitespace o t fs l s r :
  is_fingerprint s = true ->
  string_forallb isspace l = true -> string_forallb isspace r = true ->
  resolve fs META_PATH = Some (l +:+ s +:+ r) ->
  let m := run o t fs read_meta in
  (forall e, ~ In (PathExists META_PATH, Raise e) (trace m)) ->
  (forall e, ~ In (ReadText META_PATH, Raise e) (trace m)) ->
  result m = Ok (Some s) /\ disk m = fs.
Proof.
  intros Hs Hl Hr Hfs m. subst m.
  assert (Hstrip := strip_padded l s r Hs Hl Hr).
  unfold read_meta. repeat step; intros Hex Hread.
  all: try (exfalso; eapply Hex; simpl; eauto; fail).
  all: try (exfalso; eapply Hread; simpl; eauto; fail).
  by rewrite Hstrip.
Qed.

(** X10: when [save_model_version] returns without having logged a
    warning, the latest pointer and the new version both give the content
    of the artifact, and the artifact is still at its place. *)
Theorem latest_points_to_new_version o t fs dst :
  let r := run o t fs (save_model_version MODELS_DIR MODEL_SRC) in
  result r = Ok dst ->
  ~ warned (trace r) ->
  resolve (disk r) LATEST = resolve fs MODEL_SRC /\
  resolve (disk r) dst = resolve fs MODEL_SRC /\
  disk r !! MODEL_SRC = fs !! MODEL_SRC.
Proof.
  intros r. subst r. hide_post. unfold save_model_version.
  repeat step.
  all: subst P; simpl; intros Hres Hw; try discriminate.
  all: try (exfalso; apply Hw; eexists; simpl; eauto 10; fail).
  all: injection Hres as <-.
  all: rewrite !resolve_unfold; unfold LATEST, MODELS_DIR, name; simpl;
    lookups; simpl; lookups.
  all: try done.
Qed.

(** Whatever its outcome, a save removes no version. *)
Lemma save_model_version_keeps o t fs p :
  parent p = MODELS_DIR -> p <> LATEST -> is_Some (fs !! p) ->
  is_Some (disk (run o t fs (save_model_version MODELS_DIR MODEL_SRC)) !! p).
Proof.
  intros Hp Hl Hs. hide_post. unfold save_model_version.
  repeat step.
  all: subst P; simpl; unfold LATEST, MODELS_DIR in *; simpl in *.
  all: repeat match goal with
       | |- context [insert ?k _ _ !! ?q] =>
           is_var q; destruct (decide (k = q)) as [Heq|?];
           [rewrite Heq, lookup_insert_eq; eauto
           |rewrite (lookup_insert_ne _ k q) by assumption]
       | |- context [delete ?k _ !! ?q] =>
           is_var q; rewrite (lookup_delete_ne _ k q) by congruence
       end.
  all: try done.
Qed.

(** Without the artifact, a save raises [FileNotFoundError] at once. *)
Lemma save_model_version_missing o t fs :
  exists_ fs MODEL_SRC = false -> stat_error (o t) = None ->
  run o t fs (save_model_version MODELS_DIR MODEL_SRC) =
  {| result := Raise (OSError ENOENT); disk := fs; tick := S t;
     trace := [(PathExists MODEL_SRC, Ok (VBool false))] |}.
Proof.
  intros He Hs. unfold save_model_version. simpl. by rewrite Hs, He.
Qed.

(** A save changes no entry of the store but the pointer and the version
    it copies the artifact to. *)
Lemma save_model_version_frame o t fs p :
  let r := run o t fs (save_model_version MODELS_DIR MODEL_SRC) in
  p <> LATEST -> (forall v, ~ In (Copy2 MODEL_SRC p, v) (trace r)) ->
  disk r !! p = fs !! p.
Proof.
  intros r. subst r. hide_post. unfold save_model_version.
  repeat step.
  all: subst P; simpl; unfold LATEST, MODELS_DIR; simpl; intros Hl Hno.
  all: repeat match goal with
       | |- context [insert ?k _ _ !! ?q] =>
           is_var q; destruct (decide (k = q)) as [Heq|?];
           [exfalso; first [by apply Hl | eapply Hno; rewrite <- Heq; eauto 10]
           |rewrite (lookup_insert_ne _ k q) by assumption]
       | |- context [delete ?k _ !! ?q] =>
           is_var q; rewrite (lookup_delete_ne _ k q) by congruence
       end.
  all: try done.
Qed.

(** A metadata write leaves every file that was there alone, but the
    marker. *)
Lemma write_meta_atomic_keeps o t fs s p :
  p <> META_PATH -> is_Some (fs !! p) ->
  disk (run o t fs (write_meta_atomic s)) !! p = fs !! p.
Proof.
  intros Hp Hs. hide_post. unfold write_meta_atomic.
  repeat step.
  all: subst P; simpl.
  all: repeat match goal with
       | |- context [insert ?k _ _ !! ?q] =>
           is_var q; rewrite (lookup_insert_ne _ k q)
             by (intros Heq; rewrite <- Heq in Hs;
                 first [done | by destruct Hs; congruence])
       | |- context [delete ?k _ !! ?q] =>
           is_var q; rewrite (lookup_delete_ne _ k q)
             by (intros Heq; rewrite <- Heq in Hs;
                 first [done | by destruct Hs; congruence])
       end.
  all: try done.
Qed.
 
(** The exception a metadata write raises is the one a step of it met. *)
Lemma write_meta_atomic_raises o t fs s e :
  let r := run o t fs (write_meta_atomic s) in
  result r = Raise e ->
  exists c, In (c, Raise e) (trace r) /\ marker_step c = true.
Proof.
  intros r. subst r. hide_post. unfold write_meta_atomic.
  repeat step.
  all: subst P; simpl; intros Hres; try discriminate.
  all: injection Hres as <-.
  all: eexists; split; [find_in|reflexivity].
Qed.

(** X3: whatever its outcome, [write_meta_atomic] leaves every file that
    was there but the marker as it was (the temporary file never takes the
    place of an existing file); and the exception it raises, if any, is
    the one a step of the write met. *)
Theorem write_meta_atomic_keeps_other_files o t fs s p :
  p <> META_PATH -> is_Some (fs !! p) ->
  let r := run o t fs (write_meta_atomic s) in
  disk r !! p = fs !! p /\
  (forall e, result r = Raise e ->
     exists c, In (c, Raise e) (trace r) /\ marker_step c = true).
Proof.
  intros Hp Hs r. split.
  - by apply write_meta_atomic_keeps.
  - intros e. apply write_meta_atomic_raises.
Qed.

(** A save that finds no artifact raises and writes nothing. *)
Lemma save_model_version_no_artifact o t fs :
  let r := run o t fs (save_model_version MODELS_DIR MODEL_SRC) in
  In (PathExists MODEL_SRC, Ok (VBool false)) (trace r) ->
  result r = Raise (OSError ENOENT) /\ disk r = fs /\
  Forall (fun e => writes e.1 = false) (trace r).
Proof.
  intros r. subst r. hide_post. unfold save_model_version.
  repeat step.
  all: subst P; simpl; intros Hin.
  all: try (exfalso; in_cases Hin; fail).
  by repeat constructor.
Qed.

(** X11: the version [save_model_version] returns is named after the UTC
    second of the save, and two saves return the same path exactly when
    they are made in the same second. *)
Theorem version_named_by_its_second o t fs dst o' t' fs' dst' :
  let r := run o t fs (save_model_version MODELS_DIR MODEL_SRC) in
  let r' := run o' t' fs' (save_model_version MODELS_DIR MODEL_SRC) in
  result r = Ok dst -> result r' = Ok dst' ->
  valid_time (clock (o (S t))) -> valid_time (clock (o' (S t'))) ->
  dst = version_path (clock (o (S t))) /\
  (dst = dst' <-> clock (o (S t)) = clock (o' (S t'))).
Proof.
  intros r r' Hr Hr' Hv Hv'.
  assert (Hname : forall o t fs dst,
            result (run o t fs (save_model_version MODELS_DIR MODEL_SRC))
              = Ok dst ->
            dst = version_path (clock (o (S t)))).
  { clear. intros o t fs dst. hide_post. unfold save_model_version.
    repeat step.
    all: subst P; simpl; intros H; try discriminate.
    all: by injection H as <-. }
  apply Hname in Hr, Hr'. subst dst dst'. split; [done|].
  split; [|by intros ->].
  unfold version_path, MODELS_DIR. simpl. intros H.
  apply (f_equal (fun l => nth 1 l EmptyString)) in H. simpl in H.
  apply append_inj in H as [_ H]; [|done].
  apply append_inj in H as [H _]; [|by rewrite !strftime_stamp_length].
  by apply strftime_stamp_inj.
Qed.

End Functions.

(** ** More on one cycle *)

Opaque save_model_version write_meta_atomic.

(** The summaries, with what the lemmas above add to them. *)
Ltac call_summary ::=
  match goal with
  | |- context [run ?o ?t ?fs (save_model_version ?d ?s)] =>
      let H := fresh "Hsave" in
      pose proof (save_model_version_summary o t fs) as H;
      pose proof (fun p => save_model_version_keeps o t fs p);
      pose proof (fun p => save_model_version_frame o t fs p);
      pose proof (save_model_version_no_artifact o t fs);
      destruct (run o t fs (save_model_version d s)) as [? ? ? ?];
      unfold save_summary in H; simpl in *|-; destruct H as (? & ? & ?)
  | |- context [run ?o ?t ?fs (write_meta_atomic ?s)] =>
      let H := fresh "Hmeta" in
      pose proof (write_meta_atomic_summary o t fs s) as H;
      pose proof (fun p => write_meta_atomic_keeps o t fs s p);
      pose proof (fun e => write_meta_atomic_raises o t fs s e);
      destruct (run o t fs (write_meta_atomic s)) as [? ? ? ?];
      unfold meta_summary in H; simpl in *|-; destruct H as (? & ? & ?)
  end.

Lemma resolve_is_Some (fs : files) p c :
  resolve fs p = Some c -> is_Some (fs !! p).
Proof. rewrite resolve_unfold. destruct (fs !! p); [eauto|done]. Qed.

Lemma versions_subseteq (fs fs' : files) :
  (forall p, parent p = MODELS_DIR -> p <> LATEST ->
     is_Some (fs !! p) -> is_Some (fs' !! p)) ->
  versions fs ⊆ versions fs'.
Proof.
  intros H p. unfold versions. rewrite !elem_of_filter, !elem_of_dom.
  intros [[Hp Hl] Hs]. split; [done|]. by apply H.
Qed.

Ltac known_call ::= first [ when_log | call_summary ].

Lemma launch_count_quiet tr :
  Forall (fun e => launches e.1 = false) tr -> launch_count tr = 0%nat.
Proof.
  unfold launch_count. induction 1 as [|e tr He _ IH]; simpl; [done|].
  by rewrite He.
Qed.

Lemma launch_count_app tr1 tr2 :
  launch_count (tr1 ++ tr2) = (launch_count tr1 + launch_count tr2)%nat.
Proof. unfold launch_count. by rewrite List.filter_app, List.length_app. Qed.

Lemma launch_count_cons (e : event) tr :
  launch_count (e :: tr) =
  ((if launches e.1 then 1 else 0) + launch_count tr)%nat.
Proof. unfold launch_count. simpl. by destruct (launches e.1). Qed.

Lemma save_call_no_launch (tr : list event) :
  Forall (fun e => save_call e.1 = true) tr ->
  Forall (fun e => launches e.1 = false) tr.
Proof.
  intros H. eapply Forall_impl; [exact H|]. intros [c v]. by destruct c.
Qed.

Lemma meta_call_no_launch (tr : list event) :
  Forall (fun e => meta_call e.1 = true) tr ->
  Forall (fun e => launches e.1 = false) tr.
Proof.
  intros H. eapply Forall_impl; [exact H|]. intros [c v]. by destruct c.
Qed.

Ltac count_launches :=
  repeat first
    [ rewrite launch_count_app
    | rewrite launch_count_cons; simpl
    | rewrite (launch_count_quiet (maybe_event _ _))
        by (match goal with |- Forall _ (maybe_event ?b _) =>
              destruct b; by repeat constructor end)
    | rewrite launch_count_quiet by (by apply save_call_no_launch)
    | rewrite launch_count_quiet by (by apply meta_call_no_launch)
    | rewrite launch_count_quiet by constructor ].

Section Cycles.

Context {rt : Runtime}.

(** X12: without a marker file, a cycle that can read the dataset (no
    existence check raises, and reading the dataset does not fail) takes
    the training branch. *)
Theorem first_run_retrains o t fs c :
  fs !! META_PATH = None ->
  resolve fs DATA_PATH = Some c ->
  let r := run o t fs retrain_once in
  (forall p e, ~ In (PathExists p, Raise e) (trace r)) ->
  (forall e, ~ In (ReadBytes DATA_PATH, Raise e) (trace r)) ->
  retrains (trace r).
Proof.
  intros Hm Hc r. subst r.
  assert (Hr : resolve fs META_PATH = None) by (by rewrite resolve_unfold, Hm).
  hide_post. open_cycle.
  repeat walk.
  all: subst P; simpl; rewrite ?app_nil_r; open_hyps; intros Hex Hb.
  all: try (exfalso; congruence).
  all: try (exfalso; eapply Hex; simpl; find_in; fail).
  all: try (exfalso; eapply Hb; simpl; eauto; fail).
  all: split; [find_in|eexists; find_in].
Qed.

(** X13: when the child exits with 0 but the artifact is not there,
    [retrain_once] returns [False] and makes no call that writes; the
    marker file and the version store are as before (the collaborator
    keeping to its contract). *)
Theorem missing_artifact_changes_nothing o t fs :
  child_keeps_contract o ->
  let r := run o t fs retrain_once in
  In (PathExists MODEL_SRC, Ok (VBool false)) (trace r) ->
  result r = Ok false /\
  Forall (fun e => writes e.1 = false) (trace r) /\
  disk r !! META_PATH = fs !! META_PATH /\
  versions (disk r) = versions fs /\
  exists cmd env timeout p,
    In (Run cmd env timeout, Ok (VProc p)) (trace r) /\ returncode p = 0%Z.
Proof.
  intros Hc r. subst r.
  assert (Hkeep : forall k p, parent p = MODELS_DIR ->
            child_effect (o k) fs !! p = fs !! p)
    by (intros k p Hp; apply Hc; by apply models_not_src).
  hide_post. open_cycle.
  repeat walk.
  all: subst P; simpl; rewrite ?app_nil_r; open_hyps; intros Hin.
  all: try (exfalso; in_trace Hin; fail).
  all: in_trace Hin.
  all: match goal with
       | H : In _ ?tr -> _ |- _ => destruct (H Hin) as (Hr & -> & Hw)
       end; try discriminate.
  all: split; [reflexivity|].
  all: split; [forall_trace; assumption|].
  all: split; [by apply Hc|].
  all: split; [apply versions_ext; intros; by apply Hkeep|].
  all: do 4 eexists; split; [find_in|].
  all: match goal with
       | Hz : negb (returncode _ =? 0)%Z = false |- _ =>
           by apply negb_false_iff, Z.eqb_eq in Hz
       end.
Qed.

(** X14: a cycle removes no version from the store, whatever fails in
    it, and changes the content of none but the one that bears the name
    it copies the artifact to: a save in the same UTC second overwrites
    that version, and a copy that fails half-way leaves it cut short (the
    collaborator keeping to its contract). *)
Theorem version_store_only_grows o t fs :
  child_keeps_contract o ->
  let r := run o t fs retrain_once in
  versions fs ⊆ versions (disk r) /\
  (forall p, p ∈ versions fs ->
     (forall v, ~ In (Copy2 MODEL_SRC p, v) (trace r)) ->
     disk r !! p = fs !! p).
Proof.
  intros Hc r. subst r.
  assert (Hkeep : forall k p, parent p = MODELS_DIR ->
            child_effect (o k) fs !! p = fs !! p)
    by (intros k p Hp; apply Hc; by apply models_not_src).
  hide_post. open_cycle.
  repeat walk.
  all: subst P; simpl; rewrite ?app_nil_r; open_hyps.
  all: split.
  all: try (apply versions_subseteq; intros q Hq Hl Hs).
  all: repeat match goal with
       | Hm : forall p, parent p <> parent META_PATH -> ?d !! p = _
         |- is_Some (?d !! _) => rewrite Hm by (rewrite Hq; discriminate)
       | Hm : forall p, parent p <> ["data"] -> ?d !! p = _
         |- is_Some (?d !! _) => rewrite Hm by (rewrite Hq; discriminate)
       | Hv : forall p, parent p = MODELS_DIR -> p <> LATEST -> _ -> is_Some (?d !! p)
         |- is_Some (?d !! _) => apply Hv; [done|done|]
       | |- is_Some (child_effect _ _ !! _) => rewrite Hkeep by done
       end.
  all: try done.
  all: intros q Hq Hno; unfold versions in Hq;
    apply elem_of_filter in Hq as [[Hq Hl] _].
  all: repeat match goal with
       | Hm : forall p, parent p <> parent META_PATH -> ?d !! p = _
         |- ?d !! _ = _ => rewrite Hm by (rewrite Hq; discriminate)
       | Hm : forall p, parent p <> ["data"] -> ?d !! p = _
         |- ?d !! _ = _ => rewrite Hm by (rewrite Hq; discriminate)
       | Hf : forall p, p <> LATEST -> (forall v, ~ In _ ?tr) -> ?d !! p = _
         |- ?d !! _ = _ =>
           rewrite Hf; [|exact Hl|intros v Hin; eapply Hno; find_in]
       | |- child_effect _ _ !! _ = _ => rewrite Hkeep by done
       end.
  all: try done.
Qed.

(** What one of the disk's entries is after a cycle, read through the
    frames of the calls made. *)
Ltac through_frames :=
  repeat match goal with
  | Hm : forall p, p <> META_PATH -> is_Some (?fs0 !! p) -> ?d !! p = ?fs0 !! p
    |- context [?d !! ?q] =>
      rewrite (Hm q);
      [|discriminate|through_frames; eauto using resolve_is_Some]
  | Hm : forall p, parent p <> _ -> ?d !! p = _ |- context [?d !! ?q] =>
      rewrite (Hm q) by discriminate
  | Hc : child_keeps_contract ?o |- context [child_effect (?o ?k) ?fs0 !! ?q] =>
      rewrite (Hc k fs0 q) by discriminate
  end.

(** X15: a cycle leaves the dataset and the training script as they
    were (the collaborator keeping to its contract). *)
Theorem cycle_leaves_inputs_alone o t fs :
  child_keeps_contract o ->
  let r := run o t fs retrain_once in
  disk r !! DATA_PATH = fs !! DATA_PATH /\
  disk r !! TRAIN_SCRIPT = fs !! TRAIN_SCRIPT.
Proof.
  intros Hc r. subst r. hide_post. open_cycle.
  repeat walk.
  all: subst P; simpl; open_hyps.
  all: try (subst; lookups).
  all: split; through_frames.
  all: try done.
Qed.

(** A cycle on a disk whose marker file holds the fingerprint of the
    dataset does nothing. *)
Lemma recorded_cycle_is_noop o t fs c :
  fs !! DATA_PATH = Some (File c) ->
  fs !! META_PATH = Some (File (md5_of c)) ->
  let r := run o t fs retrain_once in
  (forall p e, ~ In (PathExists p, Raise e) (trace r)) ->
  (forall e, ~ In (ReadText META_PATH, Raise e) (trace r)) ->
  result r = Ok false /\ disk r = fs /\
  Forall (fun e => launches e.1 = false /\ writes e.1 = false) (trace r).
Proof.
  intros Hd Hm r. subst r.
  assert (Hc : resolve fs DATA_PATH = Some c) by (by rewrite resolve_unfold, Hd).
  assert (Hr : resolve fs META_PATH = Some (md5_of c))
    by (by rewrite resolve_unfold, Hm).
  assert (Hsame : String.eqb (md5_of c) (strip (md5_of c)) = true).
  { rewrite strip_fingerprint by apply md5_hexdigest_form.
    apply String.eqb_refl. }
  hide_post. open_cycle.
  repeat walk.
  all: subst P; simpl; intros Hex Hread.
  all: try (exfalso; congruence).
  all: try (exfalso; eapply Hex; simpl; eauto; fail).
  all: try (exfalso; eapply Hread; simpl; eauto; fail).
  all: repeat split; repeat constructor.
Qed.

(** After a cycle that returned [True] and put the marker in place, the
    marker file holds the fingerprint of the dataset, and the dataset is
    as it was. *)
Lemma successful_cycle_records o t fs c tmp :
  child_keeps_contract o ->
  fs !! DATA_PATH = Some (File c) ->
  let r := run o t fs retrain_once in
  In (Replace tmp META_PATH, Ok VUnit) (trace r) ->
  disk r !! DATA_PATH = Some (File c) /\
  disk r !! META_PATH = Some (File (md5_of c)).
Proof.
  intros Hc Hd r. subst r.
  assert (Hr : resolve fs DATA_PATH = Some c) by (by rewrite resolve_unfold, Hd).
  hide_post. open_cycle.
  repeat walk.
  all: subst P; simpl; rewrite ?app_nil_r; open_hyps; intros Hin.
  all: try (exfalso; congruence).
  all: try (exfalso; in_trace Hin; fail).
  all: subst; lookups; split; [|congruence].
  all: through_frames; done.
Qed.

(** X16: after a cycle that put the new marker in place, a second cycle
    on the resulting disk that can read the marker (no existence check
    raises, and reading the marker file does not fail) returns [False],
    starts no process and writes nothing (the dataset being a regular
    file and the collaborator keeping to its contract). *)
Theorem successful_cycle_then_noop o t fs c tmp o' t' :
  child_keeps_contract o ->
  fs !! DATA_PATH = Some (File c) ->
  let r1 := run o t fs retrain_once in
  In (Replace tmp META_PATH, Ok VUnit) (trace r1) ->
  let r2 := run o' t' (disk r1) retrain_once in
  (forall p e, ~ In (PathExists p, Raise e) (trace r2)) ->
  (forall e, ~ In (ReadText META_PATH, Raise e) (trace r2)) ->
  result r2 = Ok false /\ disk r2 = disk r1 /\
  Forall (fun e => launches e.1 = false /\ writes e.1 = false) (trace r2).
Proof.
  intros Hc Hd r1 Hin r2.
  destruct (successful_cycle_records o t fs c tmp Hc Hd Hin) as [Hd1 Hm1].
  by apply (recorded_cycle_is_noop o' t' (disk r1) c).
Qed.

(** A cycle on a disk whose marker file is absent, or holds something
    else than the fingerprint of the dataset, takes the training
    branch. *)
Lemma stale_marker_retrains o t fs c :
  fs !! DATA_PATH = Some (File c) ->
  stale_marker fs c ->
  let r := run o t fs retrain_once in
  (forall p e, ~ In (PathExists p, Raise e) (trace r)) ->
  (forall e, ~ In (ReadBytes DATA_PATH, Raise e) (trace r)) ->
  (forall e, ~ In (ReadText META_PATH, Raise e) (trace r)) ->
  retrains (trace r).
Proof.
  intros Hd Hstale r. subst r.
  assert (Hc : resolve fs DATA_PATH = Some c) by (by rewrite resolve_unfold, Hd).
  destruct Hstale as [Hm|(m & Hm & Hne)].
  - assert (Hr : resolve fs META_PATH = None)
      by (by rewrite resolve_unfold, Hm).
    hide_post. open_cycle.
    repeat walk.
    all: subst P; simpl; rewrite ?app_nil_r; open_hyps; intros Hex Hb Ht.
    all: try (exfalso; congruence).
    all: try (exfalso; eapply Hex; simpl; find_in; fail).
    all: try (exfalso; eapply Hb; simpl; eauto; fail).
    all: split; [find_in|eexists; find_in].
  - assert (Hr : resolve fs META_PATH = Some m)
      by (by rewrite resolve_unfold, Hm).
    hide_post. open_cycle.
    repeat walk.
    all: subst P; simpl; rewrite ?app_nil_r; open_hyps; intros Hex Hb Ht.
    all: try (exfalso; congruence).
    all: try (exfalso; eapply Hex; simpl; find_in; fail).
    all: try (exfalso; eapply Hb; simpl; eauto; fail).
    all: try (exfalso; eapply Ht; simpl; eauto; fail).
    all: split; [find_in|eexists; find_in].
Qed.

(** A cycle that saved a version and failed to write the marker leaves
    the dataset as it was and the marker stale. *)
Lemma unrecorded_cycle_keeps_state o t fs c dst s e :
  child_keeps_contract o ->
  fs !! DATA_PATH = Some (File c) ->
  (fs !! META_PATH = None \/ exists m, fs !! META_PATH = Some (File m)) ->
  let r := run o t fs retrain_once in
  In (Copy2 MODEL_SRC dst, Ok VUnit) (trace r) ->
  In (s, Raise e) (trace r) -> marker_step s = true ->
  disk r !! DATA_PATH = Some (File c) /\ stale_marker (disk r) c.
Proof.
  intros Hc Hd Hreg r. subst r.
  assert (Hr : resolve fs DATA_PATH = Some c) by (by rewrite resolve_unfold, Hd).
  destruct Hreg as [Hm|(m & Hm)].
  - assert (Hrm : resolve fs META_PATH = None)
      by (by rewrite resolve_unfold, Hm).
    hide_post. open_cycle.
    repeat walk.
    all: subst P; simpl; rewrite ?app_nil_r; open_hyps; intros Hsave Hfail Hs.
    all: try (exfalso; congruence).
    all: try (exfalso; in_trace Hsave; fail).
    all: try (exfalso; quiet_in Hfail Hs; fail).
    all: split; [through_frames; done|left].
    all: match goal with
         | Hk : ?d0 !! META_PATH = ?d !! META_PATH |- ?d0 !! META_PATH = _ =>
             rewrite Hk
         end; through_frames; done.
  - assert (Hrm : resolve fs META_PATH = Some m)
      by (by rewrite resolve_unfold, Hm).
    hide_post. open_cycle.
    repeat walk.
    all: subst P; simpl; rewrite ?app_nil_r; open_hyps; intros Hsave Hfail Hs.
    all: try (exfalso; congruence).
    all: try (exfalso; in_trace Hsave; fail).
    all: try (exfalso; quiet_in Hfail Hs; fail).
    all: split; [through_frames; done|right; exists m].
    all: split; [|congruence].
    all: match goal with
         | Hk : ?d0 !! META_PATH = ?d !! META_PATH |- ?d0 !! META_PATH = _ =>
             rewrite Hk
         end; through_frames; done.
Qed.

(** X17: after a cycle that saved a version but failed to write the
    marker, the next cycle on the resulting disk takes the training
    branch again (when no existence check of it raises and its reading of
    the dataset and of the marker file does not fail). *)
Theorem unrecorded_cycle_is_repeated o t fs c dst s e o' t' :
  child_keeps_contract o ->
  fs !! DATA_PATH = Some (File c) ->
  (fs !! META_PATH = None \/ exists m, fs !! META_PATH = Some (File m)) ->
  let r1 := run o t fs retrain_once in
  In (Copy2 MODEL_SRC dst, Ok VUnit) (trace r1) ->
  In (s, Raise e) (trace r1) -> marker_step s = true ->
  let r2 := run o' t' (disk r1) retrain_once in
  (forall p e, ~ In (PathExists p, Raise e) (trace r2)) ->
  (forall e, ~ In (ReadBytes DATA_PATH, Raise e) (trace r2)) ->
  (forall e, ~ In (ReadText META_PATH, Raise e) (trace r2)) ->
  retrains (trace r2).
Proof.
  intros Hc Hd Hreg r1 Hsave Hfail Hs r2.
  destruct (unrecorded_cycle_keeps_state o t fs c dst s e Hc Hd Hreg
              Hsave Hfail Hs) as [Hd1 Hstale].
  by apply (stale_marker_retrains o' t' (disk r1) c).
Qed.

(** The failures that leave a cycle: those of the three calls made
    outside every [try] block. *)
Lemma retrain_once_raises o t fs e :
  let r := run o t fs retrain_once in
  result r = Raise e ->
  unguarded e (trace r) /\ is_Exception e = true.
Proof.
  intros r. subst r. hide_post. open_cycle.
  repeat walk.
  all: subst P; simpl; rewrite ?app_nil_r; open_hyps; intros Hres.
  all: try discriminate.
  all: injection Hres as <-; split; [|reflexivity].
  all: unfold unguarded; simpl; tauto.
Qed.

(** X18: a cycle starts at most one child process, the interpreter on
    the training script with [PYTHONIOENCODING=utf-8] and the timeout
    [TRAIN_TIMEOUT], and none when the training script is missing. *)
Theorem cycle_launches_at_most_once o t fs :
  let r := run o t fs retrain_once in
  (launch_count (trace r) <= 1)%nat /\
  Forall (fun e => launches e.1 = true ->
            e.1 = Run [sys_executable; str TRAIN_SCRIPT]
                      [("PYTHONIOENCODING", "utf-8")] TRAIN_TIMEOUT)
    (trace r) /\
  (exists_ fs TRAIN_SCRIPT = false -> launch_count (trace r) = 0%nat).
Proof.
  intros r. subst r. hide_post. open_cycle.
  repeat walk.
  all: subst P; simpl; rewrite ?app_nil_r; open_hyps.
  all: split; [count_launches; lia|].
  all: split; [forall_trace|].
  all: try (eapply Forall_impl;
            [first [by apply save_call_no_launch
                   |by apply meta_call_no_launch]|];
            intros ? ->; done).
  all: unfold exists_; intros He.
  all: try (match goal with
            | H : resolve _ TRAIN_SCRIPT = Some _ |- _ => rewrite H in He
            end; discriminate He).
  all: count_launches; lia.
Qed.

End Cycles.

(** ** More on the program around the cycle *)

Opaque retrain_once.

Ltac call_cycle ::=
  match goal with
  | |- context [run ?o ?t ?fs (@retrain_once ?rt)] =>
      let H := fresh "Hcycle" in
      pose proof (@retrain_once_summary rt o t fs) as H;
      pose proof (fun e => @retrain_once_raises rt o t fs e);
      destruct (run o t fs (@retrain_once rt)) as [? ? ? ?];
      unfold cycle_summary in H; simpl in *|-
  end.

Ltac known_call ::= first [ when_log | call_summary | call_cycle ].

(** [H] puts in a cycle's trace a call that touches the lock. *)
Ltac not_in_cycle H :=
  match type of H with
  | In _ ?tr =>
      match goal with
      | HF : Forall (fun e => touches LOCKFILE e.1 = false /\ _) tr |- _ =>
          let H' := fresh in
          pose proof (proj1 (List.Forall_forall _ tr) HF _ H) as H';
          simpl in H'; destruct H' as [H' ?]; discriminate
      end
  end.

Lemma cycle_not_interrupted (tr : list event) :
  Forall (fun e => touches LOCKFILE e.1 = false /\ turn_end e.1 = false) tr ->
  Forall (fun e => interrupted e = false) tr.
Proof.
  intros Htr. eapply Forall_impl; [exact Htr|].
  intros [c v] [_ H]. by destruct c.
Qed.

Ltac calm_trace :=
  forall_trace; try (by apply cycle_not_interrupted).

Section Runs.

Context {rt : Runtime}.

(** X4: [acquire_lock] never raises; it returns [True] only when the
    lock file was not there, and the lock file then holds the pid and a
    newline; when the lock file is there it returns [False] and leaves the
    disk as it is; it changes no other entry. *)
Theorem acquire_lock_outcome o t fs :
  let r := run o t fs acquire_lock in
  exists b,
    result r = Ok b /\
    (b = true ->
     fs !! LOCKFILE = None /\
     disk r = <[LOCKFILE := File (decimal (pid (o (S t))) +:+ newline)]> fs) /\
    (is_Some (fs !! LOCKFILE) -> b = false /\ disk r = fs) /\
    (forall p, p <> LOCKFILE -> disk r !! p = fs !! p).
Proof.
  intros r. subst r. hide_post. unfold acquire_lock.
  repeat walk.
  all: subst P; simpl; eexists; split; [reflexivity|].
  all: split; [intros Hb; try discriminate Hb|].
  all: try (split; [done|by rewrite insert_insert_eq]).
  all: split; [intros [? Hs]; try congruence; done|].
  all: intros p Hp; by rewrite ?lookup_insert_ne.
Qed.

(** X5: [release_lock] never raises, also when the existence check or
    the removal fails, and changes no entry but the lock file; the lock
    file is gone afterwards unless the check or the removal failed;
    without a lock file it does nothing. *)
Theorem release_lock_outcome o t fs :
  let r := run o t fs release_lock in
  result r = Ok tt /\
  (forall p, p <> LOCKFILE -> disk r !! p = fs !! p) /\
  ((forall e, ~ In (PathExists LOCKFILE, Raise e) (trace r)) ->
   (forall e, ~ In (Remove LOCKFILE, Raise e) (trace r)) ->
   exists_ (disk r) LOCKFILE = false) /\
  (exists_ fs LOCKFILE = false ->
   disk r = fs /\ Forall (fun e => writes e.1 = false) (trace r)).
Proof.
  intros r. subst r. hide_post. unfold release_lock.
  repeat walk.
  all: subst P; simpl.
  all: split; [reflexivity|].
  all: split; [intros p Hp; by rewrite ?lookup_delete_ne|].
  all: split.
  all: match goal with
       | |- (forall e, _) -> _ =>
           intros Hex Hrm;
           first [ exfalso; eapply Hex; simpl; eauto; fail
                 | exfalso; eapply Hrm; simpl; eauto; fail
                 | unfold exists_; rewrite resolve_unfold, lookup_delete_eq;
                   reflexivity
                 | unfold exists_;
                   match goal with H : resolve _ _ = _ |- _ => by rewrite H end ]
       | |- exists_ _ _ = false -> _ =>
           intros He; unfold exists_ in He;
           first [ match goal with
                   | H : resolve _ _ = _ |- _ => rewrite H in He
                   end; discriminate He
                 | split; [reflexivity|by repeat constructor] ]
       end.
Qed.

(** X6: when writing the pid into the lock file just created fails, a
    single run of [main] reports that another retrain is running and
    returns without a cycle, and the lock file stays behind. *)
Theorem failed_pid_write_leaves_token o t fs turns a s e :
  watch a = false ->
  let r := run o t fs (main turns a) in
  In (WriteText LOCKFILE s, Raise e) (trace r) ->
  fs !! LOCKFILE = None /\ is_Some (disk r !! LOCKFILE) /\
  result r = Ok tt /\
  In (Log ERROR
        "Another retrain is already running (lockfile present). Exiting.",
      Ok VUnit) (trace r) /\
  Forall (fun e => launches e.1 = false) (trace r).
Proof.
  intros Hw r. subst r. destruct a as [w i on]. simpl in Hw. subst w.
  hide_post. unfold main, acquire_lock, release_lock. simpl.
  repeat walk.
  all: subst P; simpl; rewrite ?app_nil_r; open_hyps; intros Hin.
  all: try (exfalso; in_trace Hin; try not_in_cycle Hin; fail).
  all: split; [done|].
  all: split; [lookups; eauto|].
  all: split; [reflexivity|].
  all: split; [find_in|by repeat constructor].
Qed.

(** X7: a single run of [main] that acquired the lock has released it
    when it ends, on every path, also when the cycle or the forced write
    raises, unless the existence check of the lock file or its removal
    itself failed. *)
Theorem main_releases_lock o t fs turns a s :
  watch a = false ->
  let r := run o t fs (main turns a) in
  In (WriteText LOCKFILE s, Ok VUnit) (trace r) ->
  (forall e, ~ In (PathExists LOCKFILE, Raise e) (trace r)) ->
  (forall e, ~ In (Remove LOCKFILE, Raise e) (trace r)) ->
  exists_ (disk r) LOCKFILE = false.
Proof.
  intros Hw r. subst r. destruct a as [w i on]. simpl in Hw. subst w.
  hide_post. unfold main, acquire_lock, release_lock. simpl.
  repeat walk.
  all: subst P; simpl; rewrite ?app_nil_r; open_hyps; intros Hin Hex Hrm.
  all: try (exfalso; in_trace Hin; try not_in_cycle Hin; fail).
  all: try (exfalso; eapply Hex; simpl; rewrite ?List.in_app_iff; simpl;
                 eauto 12; fail).
  all: try (exfalso; eapply Hrm; simpl; rewrite ?List.in_app_iff; simpl;
                 eauto 12; fail).
  all: unfold exists_;
    first [ match goal with H : resolve _ _ = _ |- _ => by rewrite H end
          | by rewrite resolve_unfold, lookup_delete_eq ].
Qed.

(** X8: a single run of [main] ends with an error (an exception of the
    class [Exception]) only when one of the three calls that a cycle
    makes outside every [try] block failed (the existence check of the
    dataset, the existence check of the marker file, the reading of the
    marker file) or, in a forced run, when a step of the sentinel write
    failed; the error is that of the failed call. *)
Theorem main_failure_causes o t fs turns a e :
  watch a = false ->
  let r := run o t fs (main turns a) in
  result r = Raise e -> is_Exception e = true ->
  unguarded e (trace r) \/
  once a = true /\ exists c, In (c, Raise e) (trace r) /\ marker_step c = true.
Proof.
  intros Hw r. subst r. destruct a as [w i on]. simpl in Hw. subst w.
  hide_post. unfold main, acquire_lock, release_lock. simpl.
  repeat walk.
  all: subst P; simpl; rewrite ?app_nil_r; open_hyps; intros Hres _.
  all: try discriminate.
  all: injection Hres as <-.
  all: first
    [ left;
      match goal with
      | H : forall e, _ = Raise e -> unguarded _ ?tr /\ _ |- _ =>
          destruct (H _ eq_refl) as [[Hin|[Hin|Hin]] _]
      end;
      [left; find_in|right; left; find_in|right; right; find_in]
    | right; split; [reflexivity|];
      match goal with
      | H : forall e, _ = Raise e -> exists c, In _ ?tr /\ _ |- _ =>
          destruct (H _ eq_refl) as (c & Hin & Hc)
      end; exists c; split; [find_in|exact Hc] ].
Qed.

(** What [time.sleep] refuses is no Ctrl-C. *)
Lemma sleep_error_is_Exception i e :
  sleep_error i = Some e -> is_Exception e = true.
Proof.
  unfold sleep_error.
  destruct (SLEEP_MAX <? Z.abs i)%Z; [by intros [= <-]|].
  destruct (i <? 0)%Z; [by intros [= <-]|done].
Qed.

Lemma sleep_error_negative i : (i < 0)%Z -> is_Some (sleep_error i).
Proof.
  intros Hi. unfold sleep_error.
  destruct (SLEEP_MAX <? Z.abs i)%Z; [by eexists|].
  apply Z.ltb_lt in Hi. rewrite Hi. by eexists.
Qed.

Lemma watch_turn_result o t fs i :
  let r := run o t fs (watch_turn i) in
  match result r with
  | Ok _ =>
      Forall (fun e => interrupted e = false) (trace r) /\
      sleep_error i = None
  | Raise e =>
      if is_KeyboardInterrupt e then sleep_error i = None
      else (unguarded e (trace r) \/ In (Sleep i, Raise e) (trace r)) /\
           Forall (fun e => interrupted e = false) (trace r)
  end.
Proof.
  intros r. subst r. hide_post. unfold watch_turn, acquire_lock, release_lock.
  repeat walk.
  all: subst P; simpl; rewrite ?app_nil_r; open_hyps.
  all: try (split; [calm_trace|first [assumption|reflexivity]]; fail).
  all: try done.
  all: try match goal with
       | H : forall e, _ = Raise e -> unguarded _ ?tr /\ _ |- _ =>
           destruct (H _ eq_refl) as [Hin He]
       end.
  all: try match goal with
       | H : sleep_error _ = Some _ |- _ =>
           pose proof (sleep_error_is_Exception _ _ H) as He
       end.
  all: try match goal with
       | |- context [is_KeyboardInterrupt ?e] => destruct e; try discriminate
       end; simpl.
  all: try done.
  all: split; [|calm_trace].
  all: first
    [ right; find_in
    | left; destruct Hin as [Hin|[Hin|Hin]];
      [left; find_in|right; left; find_in|right; right; find_in] ].
Qed.

Lemma watch_turns_result turns i : forall o t fs,
  let r := run o t fs (watch_turns turns i) in
  match result r with
  | Ok _ =>
      Forall (fun e => interrupted e = false) (trace r) /\
      ((0 < turns)%nat -> sleep_error i = None)
  | Raise e =>
      if is_KeyboardInterrupt e then sleep_error i = None
      else (unguarded e (trace r) \/ In (Sleep i, Raise e) (trace r)) /\
           Forall (fun e => interrupted e = false) (trace r)
  end.
Proof.
  induction turns as [|n IH]; intros o t fs; [split; [constructor|lia]|].
  simpl watch_turns. intros r. subst r. rewrite run_bind.
  pose proof (watch_turn_result o t fs i) as Hw.
  destruct (run o t fs (watch_turn i)) as [res d tk tr].
  simpl in Hw. unfold then_, prepend. simpl.
  destruct res as [[]|e]; simpl.
  - destruct Hw as [Hw Hs]. specialize (IH o tk d). simpl in IH.
    destruct (result (run o tk d (watch_turns n i))) as [[]|e].
    + split; [apply Forall_app_2; tauto|done].
    + destruct (is_KeyboardInterrupt e); [done|].
      destruct IH as [Hin Hq]. split.
      * unfold unguarded in *. rewrite !List.in_app_iff. tauto.
      * by apply Forall_app_2.
  - by rewrite app_nil_r.
Qed.

(** X9: the watch loop ends with an error (an exception of the class
    [Exception]) only when one of the three calls that a cycle makes
    outside every [try] block failed, or when [time.sleep] itself raised,
    with that error; when a sleep is interrupted by Ctrl-C it logs that
    it was stopped and returns normally; and with a negative interval,
    which the parser of the arguments accepts, it does not get past its
    first turn: it ends with an exception. *)
Theorem what_ends_the_watch_loop o t fs turns i :
  let r := run o t fs (watch_loop turns i) in
  (forall e, result r = Raise e -> is_Exception e = true ->
     unguarded e (trace r) \/ In (Sleep i, Raise e) (trace r)) /\
  (Exists (fun e => interrupted e = true) (trace r) ->
   result r = Ok tt /\
   In (Log INFO "Watch mode stopped by user.", Ok VUnit) (trace r)) /\
  ((i < 0)%Z -> (0 < turns)%nat -> is_ok (result r) = false).
Proof.
  intros r. subst r. unfold watch_loop.
  rewrite run_bind. unfold then_. simpl.
  rewrite run_try_except. unfold then_. simpl.
  pose proof (watch_turns_result turns i o (S t) fs) as Hw.
  destruct (run o (S t) fs (watch_turns turns i)) as [res d tk tr].
  simpl in *.
  assert (Hcalm : Forall (fun e => interrupted e = false) tr ->
            ~ Exists (fun e => interrupted e = true) tr).
  { intros Hq Hex. apply List.Exists_exists in Hex as (x & Hx & Hi).
    rewrite List.Forall_forall in Hq. specialize (Hq x Hx). congruence. }
  destruct res as [[]|e]; simpl.
  - rewrite app_nil_r. destruct Hw as [Hw Hs]. split; [done|]. split.
    + intros Hex. apply Exists_cons in Hex as [Hex|Hex]; [done|].
      by destruct (Hcalm Hw Hex).
    + intros Hi Ht. destruct (sleep_error_negative i Hi) as [x Hx].
      rewrite (Hs Ht) in Hx. discriminate.
  - destruct (is_KeyboardInterrupt e) eqn:Hk; simpl.
    + destruct e; try discriminate Hk. split; [done|]. split.
      * intros _. split; [done|].
        right. apply List.in_or_app. right. by left.
      * intros Hi _. destruct (sleep_error_negative i Hi) as [x Hx].
        rewrite Hw in Hx. discriminate.
    + rewrite app_nil_r. destruct Hw as [Hin Hq]. split; [|split].
      * intros e' [= <-] _. unfold unguarded in *. simpl. tauto.
      * intros Hex. apply Exists_cons in Hex as [Hex|Hex]; [done|].
        by destruct (Hcalm Hq Hex).
      * done.
Qed.

End Runs.

Ltac call_cycle ::=
  match goal with
  | |- context [run ?o ?t ?fs (@retrain_once ?rt)] =>
      let H := fresh "Hcycle" in
      pose proof (@retrain_once_summary rt o t fs) as H;
      pose proof (fun e => @retrain_once_raises rt o t fs e);
      pose proof (fun c => @recorded_cycle_is_noop rt o t fs c);
      pose proof (fun c => @sentinel_forces_retrain rt o t fs c);
      destruct (run o t fs (@retrain_once rt)) as [? ? ? ?];
      unfold cycle_summary in H; simpl in *|-
  end.

Ltac known_call ::= first [ when_log | call_summary | call_cycle ].

Section WholeRuns.

Context {rt : Runtime}.

(** X19: a single run of [main] without [--once], on a disk without a
    lock file whose marker is the fingerprint of the dataset, leaves the
    disk exactly as it found it and starts no process, when no call
    fails. *)
Theorem unchanged_run_leaves_disk o t fs turns c :
  fs !! LOCKFILE = None ->
  fs !! DATA_PATH = Some (File c) ->
  fs !! META_PATH = Some (File (md5_of c)) ->
  let r := run o t fs (main turns single) in
  Forall (fun e => is_ok e.2 = true) (trace r) ->
  result r = Ok tt /\ disk r = fs /\
  Forall (fun e => launches e.1 = false) (trace r).
Proof.
  intros Hl Hd Hm r. subst r.
  hide_post. unfold main, single, acquire_lock, release_lock. simpl.
  repeat walk.
  all: subst P; simpl; rewrite ?app_nil_r; intros Hok.
  all: try (exfalso; repeat (apply Forall_cons in Hok as [? Hok]);
                 discriminate).
  all: do 3 (apply Forall_cons in Hok as [_ Hok]);
    apply Forall_app in Hok as [Htr Htail].
  all: try (exfalso; repeat (apply Forall_cons in Htail as [? Htail]);
                 discriminate).
  all: match goal with
       | H : context [@Ok bool false] |- _ =>
           destruct (H c) as (Hres & Hdisk & Hq);
           [by lookups|by lookups
           |intros ? ? Hin;
            pose proof (proj1 (List.Forall_forall _ _) Htr _ Hin) as Hx;
            simpl in Hx; discriminate Hx
           |intros ? Hin;
            pose proof (proj1 (List.Forall_forall _ _) Htr _ Hin) as Hx;
            simpl in Hx; discriminate Hx|]
       end.
  all: try discriminate Hres.
  all: subst.
  all: try (exfalso;
            match goal with
            | H : resolve _ LOCKFILE = None |- _ =>
                rewrite resolve_unfold, lookup_insert_eq in H; discriminate H
            end).
  all: split; [reflexivity|]; split.
  all: try (apply map_eq; intros q;
            destruct (decide (q = LOCKFILE)) as [->|Hq'];
            [by rewrite lookup_delete_eq
            |by rewrite lookup_delete_ne, !lookup_insert_ne]).
  all: forall_trace.
  all: eapply Forall_impl; [exact Hq|]; by intros ? [? _].
Qed.

(** X20: a forced run of [main] that put the sentinel in place takes the
    training branch whatever the marker file held before, when it can
    read the dataset and the marker (no existence check raises and no
    reading fails). *)
Theorem forced_run_retrains o t fs turns i c tmp :
  fs !! DATA_PATH = Some (File c) ->
  let r := run o t fs (main turns (forced i)) in
  In (Replace tmp META_PATH, Ok VUnit) (trace r) ->
  (forall p e, ~ In (PathExists p, Raise e) (trace r)) ->
  (forall p e, ~ In (ReadBytes p, Raise e) (trace r)) ->
  (forall p e, ~ In (ReadText p, Raise e) (trace r)) ->
  retrains (trace r).
Proof.
  intros Hd r. subst r.
  hide_post. unfold main, forced, acquire_lock, release_lock. simpl.
  repeat walk.
  all: subst P; simpl; rewrite ?app_nil_r; open_hyps; intros Hrep Hex Hb Ht.
  all: try (exfalso; in_trace Hrep; fail).
  all: match goal with
       | H : forall c, _ !! META_PATH = Some (File "__FORCE__") -> _ |- _ =>
           destruct (H c) as (Hlog & b & Hscript);
           [subst; by lookups
           |subst; rewrite resolve_unfold; lookups; by rewrite Hd
           |intros ? ? Hin; eapply Hex; find_in
           |intros ? ? Hin; eapply Hb; find_in
           |intros ? ? Hin; eapply Ht; find_in|]
       end.
  all: split; [find_in|exists b; find_in].
Qed.

End WholeRuns.

(** ** The further properties at work on concrete runs *)

Lemma idle_child_keeps : child_keeps_contract (always (idle_child calm)).
Proof. by intros k fs p Hp. Qed.

Lemma file_md5_reads_whole_file_witness :
  let r := run (always calm) 0 fs_new (@file_md5 toy_runtime DATA_PATH) in
  result r = Ok "000000000000000000000000000000f0" /\
  join_chunks (chunks 8192 "a,b") = "a,b" /\
  disk r = fs_new.
Proof.
  intros r.
  destruct (file_md5_reads_whole_file (rt := toy_runtime) (always calm) 0%nat
              fs_new DATA_PATH "a,b") as (Hr & Hj & _ & Hd).
  - reflexivity.
  - reflexivity.
  - split; [exact Hr|]. split; [exact Hj|exact Hd].
Defined.

Lemma read_meta_ignores_whitespace_witness :
  result (run (always calm) 0 fs_same read_meta) =
    Ok (Some "000000000000000000000000000000f0") /\
  disk (run (always calm) 0 fs_same read_meta) = fs_same.
Proof.
  apply (read_meta_ignores_whitespace (always calm) 0%nat fs_same
           EmptyString "000000000000000000000000000000f0" newline).
  - reflexivity.
  - reflexivity.
  - reflexivity.
  - reflexivity.
  - intros e H. absent H.
  - intros e H. absent H.
Defined.

Lemma write_meta_atomic_keeps_other_files_witness :
  let r := run cleanup_fails 0 fs_same (write_meta_atomic "abc") in
  disk r !! DATA_PATH = fs_same !! DATA_PATH /\
  (forall e, result r = Raise e ->
     exists c, In (c, Raise e) (trace r) /\ marker_step c = true).
Proof.
  apply (write_meta_atomic_keeps_other_files cleanup_fails 0%nat fs_same "abc"
           DATA_PATH).
  - discriminate.
  - exists (File "a,b"). reflexivity.
Defined.

Lemma failed_pid_write_leaves_token_witness :
  let r := run pid_write_fails 0 fs_new (@main toy_runtime 0 single) in
  fs_new !! LOCKFILE = None /\ is_Some (disk r !! LOCKFILE) /\
  result r = Ok tt /\
  In (Log ERROR
        "Another retrain is already running (lockfile present). Exiting.",
      Ok VUnit) (trace r) /\
  Forall (fun e => launches e.1 = false) (trace r).
Proof.
  apply (failed_pid_write_leaves_token (rt := toy_runtime) pid_write_fails
           0%nat fs_new 0%nat single (decimal 4242 +:+ newline)
           (OSError ENOSPC)).
  - reflexivity.
  - present.
Defined.

Lemma main_releases_lock_witness :
  exists_
    (disk (run (always calm) 0 fs_new (@main toy_runtime 0 single)))
    LOCKFILE = false.
Proof.
  apply (main_releases_lock (rt := toy_runtime) (always calm) 0%nat fs_new
           0%nat single (decimal 4242 +:+ newline)).
  - reflexivity.
  - present.
  - intros e H. absent H.
  - intros e H. absent H.
Defined.

Lemma main_failure_causes_witness :
  let r := run dataset_unreachable 0 fs_same (@main toy_runtime 0 single) in
  result r = Raise (OSError EACCES) /\
  (unguarded (OSError EACCES) (trace r) \/
   once single = true /\
   exists c, In (c, Raise (OSError EACCES)) (trace r) /\ marker_step c = true).
Proof.
  intros r. split; [reflexivity|].
  apply (main_failure_causes (rt := toy_runtime) dataset_unreachable 0%nat
           fs_same 0%nat single (OSError EACCES)).
  - reflexivity.
  - reflexivity.
  - reflexivity.
Defined.

Lemma latest_points_to_new_version_witness :
  let r := run (always calm) 0 fs_trained
             (save_model_version MODELS_DIR MODEL_SRC) in
  result r = Ok version0 /\
  resolve (disk r) LATEST = Some "weights" /\
  resolve (disk r) version0 = Some "weights" /\
  disk r !! MODEL_SRC = Some (File "weights").
Proof.
  intros r. split; [reflexivity|].
  apply (latest_points_to_new_version (always calm) 0%nat fs_trained version0).
  - reflexivity.
  - intros [m H]. absent H.
Defined.

Lemma version_named_by_its_second_witness :
  let r := run (always calm) 0 fs_trained
             (save_model_version MODELS_DIR MODEL_SRC) in
  let r' := run (always (at_time dt1 calm)) 0 fs_trained
              (save_model_version MODELS_DIR MODEL_SRC) in
  result r = Ok version0 /\
  result r' = Ok (version_path dt1) /\
  version0 = version_path dt0 /\
  (version0 = version_path dt1 <-> dt0 = dt1).
Proof.
  intros r r'. split; [reflexivity|]. split; [reflexivity|].
  apply (version_named_by_its_second (always calm) 0%nat fs_trained version0
           (always (at_time dt1 calm)) 0%nat fs_trained (version_path dt1)).
  - reflexivity.
  - reflexivity.
  - unfold valid_time. simpl. lia.
  - unfold valid_time. simpl. lia.
Defined.

Lemma first_run_retrains_witness :
  fs_new !! META_PATH = None /\
  retrains (trace (run (always calm) 0 fs_new (@retrain_once toy_runtime))).
Proof.
  split; [reflexivity|].
  apply (first_run_retrains (rt := toy_runtime) (always calm) 0%nat fs_new
           "a,b").
  - reflexivity.
  - reflexivity.
  - intros p e H. absent H.
  - intros e H. absent H.
Defined.

Lemma missing_artifact_changes_nothing_witness :
  let r := run (always (idle_child calm)) 0 fs_new
             (@retrain_once toy_runtime) in
  result r = Ok false /\
  Forall (fun e => writes e.1 = false) (trace r) /\
  disk r !! META_PATH = fs_new !! META_PATH /\
  versions (disk r) = versions fs_new /\
  exists cmd env timeout p,
    In (Run cmd env timeout, Ok (VProc p)) (trace r) /\ returncode p = 0%Z.
Proof.
  apply (missing_artifact_changes_nothing (rt := toy_runtime)
           (always (idle_child calm)) 0%nat fs_new).
  - exact idle_child_keeps.
  - present.
Defined.

Lemma version_store_only_grows_witness :
  let r := run (always calm) 0 fs_taken (@retrain_once toy_runtime) in
  versions fs_taken ⊆ versions (disk r) /\
  (forall p, p ∈ versions fs_taken ->
     (forall v, ~ In (Copy2 MODEL_SRC p, v) (trace r)) ->
     disk r !! p = fs_taken !! p).
Proof.
  apply (version_store_only_grows (rt := toy_runtime) (always calm) 0%nat
           fs_taken).
  exact calm_keeps.
Defined.

Lemma cycle_leaves_inputs_alone_witness :
  let r := run (always calm) 0 fs_new (@retrain_once toy_runtime) in
  disk r !! DATA_PATH = fs_new !! DATA_PATH /\
  disk r !! TRAIN_SCRIPT = fs_new !! TRAIN_SCRIPT.
Proof.
  apply (cycle_leaves_inputs_alone (rt := toy_runtime) (always calm) 0%nat
           fs_new).
  exact calm_keeps.
Defined.

Lemma successful_cycle_then_noop_witness :
  let r1 := run (always calm) 0 fs_new (@retrain_once toy_runtime) in
  let r2 := run (always calm) 30 (disk r1) (@retrain_once toy_runtime) in
  result r1 = Ok true /\
  result r2 = Ok false /\ disk r2 = disk r1 /\
  Forall (fun e => launches e.1 = false /\ writes e.1 = false) (trace r2).
Proof.
  intros r1 r2. split; [reflexivity|].
  apply (successful_cycle_then_noop (rt := toy_runtime) (always calm) 0%nat
           fs_new "a,b" tmp0 (always calm) 30%nat).
  - exact calm_keeps.
  - reflexivity.
  - present.
  - intros p e H. absent H.
  - intros e H. absent H.
Defined.

Lemma unrecorded_cycle_is_repeated_witness :
  let r1 := run meta_fails 0 fs_new (@retrain_once toy_runtime) in
  let r2 := run (always calm) 30 (disk r1) (@retrain_once toy_runtime) in
  result r1 = Ok true /\ retrains (trace r2).
Proof.
  intros r1 r2. split; [reflexivity|].
  apply (unrecorded_cycle_is_repeated (rt := toy_runtime) meta_fails 0%nat
           fs_new "a,b" version0
           (WriteText tmp0 (@md5_of toy_runtime "a,b")) (OSError ENOSPC)
           (always calm) 30%nat).
  - apply fault_at_keeps, calm_keeps.
  - reflexivity.
  - left. reflexivity.
  - present.
  - present.
  - reflexivity.
  - intros p e H. absent H.
  - intros e H. absent H.
  - intros e H. absent H.
Defined.

Lemma unchanged_run_leaves_disk_witness :
  let r := run (always calm) 0 fs_recorded (@main toy_runtime 0 single) in
  result r = Ok tt /\ disk r = fs_recorded /\
  Forall (fun e => launches e.1 = false) (trace r).
Proof.
  apply (unchanged_run_leaves_disk (rt := toy_runtime) (always calm) 0%nat
           fs_recorded 0%nat "a,b").
  - reflexivity.
  - reflexivity.
  - reflexivity.
  - vm_compute. repeat constructor.
Defined.

Lemma forced_run_retrains_witness :
  retrains
    (trace (run (always calm) 0 fs_recorded
              (@main toy_runtime 0 (forced 300)))).
Proof.
  apply (forced_run_retrains (rt := toy_runtime) (always calm) 0%nat
           fs_recorded 0%nat 300%Z "a,b" tmp0).
  - reflexivity.
  - present.
  - intros p e H. absent H.
  - intros p e H. absent H.
  - intros p e H. absent H.
Defined.

